(** * generate_qt_mappings.py: a shallow embedding and its properties

    The script scans a Qt include tree and writes an include-what-you-use
    mapping file.  The development below embeds the script function by
    function (same names where Rocq permits), together with the parts of the
    Python runtime it calls: [os.path] (posixpath), [fnmatch], [glob],
    [re.findall] for the one regular expression used, and [json.dumps] for
    the one shape of value dumped.

    Text is modelled by [string]; a character is a code point below 256. *)

From Stdlib Require Import String Ascii List Bool Arith Lia Permutation.
Import ListNotations.
Open Scope list_scope.
Open Scope string_scope.

(* ------------------------------------------------------------------ *)
(** ** Strings *)

Module Str.

(** [c in s] for a single character. *)
Fixpoint mem (c : ascii) (s : string) : bool :=
  match s with
  | EmptyString => false
  | String x s' => Ascii.eqb c x || mem c s'
  end.

(** [s.startswith(p)], returning what follows the prefix. *)
Fixpoint strip_prefix (p s : string) : option string :=
  match p with
  | EmptyString => Some s
  | String a p' =>
      match s with
      | EmptyString => None
      | String b s' => if Ascii.eqb a b then strip_prefix p' s' else None
      end
  end.

Definition startswith (p s : string) : bool :=
  match strip_prefix p s with Some _ => true | None => false end.

(** Last character, when there is one. *)
Fixpoint last (s : string) : option ascii :=
  match s with
  | EmptyString => None
  | String c EmptyString => Some c
  | String _ s' => last s'
  end.

Fixpoint endswith (suffix s : string) : bool :=
  String.eqb suffix s ||
  match s with
  | EmptyString => false
  | String _ s' => endswith suffix s'
  end.

(** [sep.join(parts)]. *)
Fixpoint join (sep : string) (parts : list string) : string :=
  match parts with
  | [] => ""
  | [p] => p
  | p :: rest => p ++ sep ++ join sep rest
  end.

(** [s.split(sep)] for a one-character separator. *)
Fixpoint split (sep : ascii) (s : string) : list string :=
  match s with
  | EmptyString => [""]
  | String c s' =>
      if Ascii.eqb c sep then "" :: split sep s'
      else match split sep s' with
           | [] => [String c ""]
           | w :: ws => String c w :: ws
           end
  end.

Definition nonempty (s : string) : bool :=
  match s with EmptyString => false | String _ _ => true end.

End Str.

(* ------------------------------------------------------------------ *)
(** ** posixpath *)

Module PosixPath.

Definition sep : ascii := "/"%char.

Definition is_sep (c : ascii) : bool := Ascii.eqb c sep.

(** [(p[:i], p[i:])] with [i = p.rfind('/') + 1]. *)
Fixpoint rsplit_sep (p : string) : string * string :=
  match p with
  | EmptyString => ("", "")
  | String c p' =>
      let (h, t) := rsplit_sep p' in
      match h with
      | String _ _ => (String c h, t)
      | EmptyString => if is_sep c then (String c "", t) else ("", String c t)
      end
  end.

(** [s.rstrip('/')]. *)
Fixpoint rstrip_sep (s : string) : string :=
  match s with
  | EmptyString => ""
  | String c s' =>
      match rstrip_sep s' with
      | EmptyString => if is_sep c then "" else String c ""
      | r => String c r
      end
  end.

(** [head == sep * len(head)]. *)
Fixpoint all_sep (s : string) : bool :=
  match s with
  | EmptyString => true
  | String c s' => is_sep c && all_sep s'
  end.

Definition strip_head (head : string) : string :=
  if Str.nonempty head && negb (all_sep head) then rstrip_sep head else head.

Definition split (p : string) : string * string :=
  let (head, tail) := rsplit_sep p in (strip_head head, tail).

Definition basename (p : string) : string := snd (rsplit_sep p).

Definition dirname (p : string) : string := strip_head (fst (rsplit_sep p)).

Definition ends_sep (s : string) : bool :=
  match Str.last s with Some c => is_sep c | None => false end.

(** [os.path.join(a, b)] for two arguments. *)
Definition join (a b : string) : string :=
  if Str.startswith "/" b then b
  else if negb (Str.nonempty a) || ends_sep a then a ++ b
  else a ++ "/" ++ b.

End PosixPath.

(* ------------------------------------------------------------------ *)
(** ** fnmatch *)

Module Fnmatch.

Inductive item : Type :=
| Star
| AnyChar
| Class (negated : bool) (stuff : string)
| Lit (c : ascii).

Fixpoint scan_to_rbracket (s : string) : option (string * string) :=
  match s with
  | EmptyString => None
  | String c s' =>
      if Ascii.eqb c "]" then Some ("", s')
      else match scan_to_rbracket s' with
           | Some (a, r) => Some (String c a, r)
           | None => None
           end
  end.

(** The body of a bracket expression: an optional leading [!], an optional
    literal [']'], then everything up to the next [']']. *)
Definition class_body (s : string) : option (string * string) :=
  let '(bang, s1) :=
    match s with
    | String "!" s' => ("!", s')
    | _ => ("", s)
    end in
  let '(rb, s2) :=
    match s1 with
    | String "]" s' => ("]", s')
    | _ => ("", s1)
    end in
  match scan_to_rbracket s2 with
  | Some (a, r) => Some (bang ++ rb ++ a, r)
  | None => None
  end.

(** [fnmatch.translate], to a list of items instead of a regular expression
    text.  The fuel bounds the length of the pattern. *)
Fixpoint translate (fuel : nat) (pat : string) : list item :=
  match fuel with
  | O => []
  | S fuel' =>
      match pat with
      | EmptyString => []
      | String "*" rest => Star :: translate fuel' rest
      | String "?" rest => AnyChar :: translate fuel' rest
      | String "[" rest =>
          match class_body rest with
          | None => Lit "[" :: translate fuel' rest
          | Some (String "!" stuff, rest') =>
              Class true stuff :: translate fuel' rest'
          | Some (stuff, rest') => Class false stuff :: translate fuel' rest'
          end
      | String c rest => Lit c :: translate fuel' rest
      end
  end.

(** Membership in a bracket expression, with [lo-hi] ranges. *)
Fixpoint class_mem (c : ascii) (stuff : string) : bool :=
  match stuff with
  | String lo (String "-" (String hi rest)) =>
      (Nat.leb (nat_of_ascii lo) (nat_of_ascii c) &&
       Nat.leb (nat_of_ascii c) (nat_of_ascii hi)) || class_mem c rest
  | String x rest => Ascii.eqb c x || class_mem c rest
  | EmptyString => false
  end.

(** Whole-string match of a name against the items, with backtracking on
    [Star]. *)
Fixpoint match_items (items : list item) (s : string) : bool :=
  match items with
  | [] => negb (Str.nonempty s)
  | Star :: rest =>
      (fix star (s : string) : bool :=
         match_items rest s ||
         match s with
         | EmptyString => false
         | String _ s' => star s'
         end) s
  | AnyChar :: rest =>
      match s with
      | EmptyString => false
      | String _ s' => match_items rest s'
      end
  | Class negated stuff :: rest =>
      match s with
      | EmptyString => false
      | String c s' => xorb negated (class_mem c stuff) && match_items rest s'
      end
  | Lit x :: rest =>
      match s with
      | EmptyString => false
      | String c s' => Ascii.eqb c x && match_items rest s'
      end
  end.

Definition fnmatch (name pat : string) : bool :=
  match_items (translate (String.length pat) pat) name.

(** [fnmatch.filter(names, pat)]. *)
Definition filter (names : list string) (pat : string) : list string :=
  List.filter (fun n => fnmatch n pat) names.

End Fnmatch.


(* ------------------------------------------------------------------ *)
(** ** Exceptions *)

Inductive exn : Type :=
| IOError (filename : string).

Inductive result (A : Type) : Type :=
| Ok (a : A)
| Raise (e : exn).

Arguments Ok {A} a.
Arguments Raise {A} e.

Definition bind {A B : Type} (r : result A) (k : A -> result B) : result B :=
  match r with
  | Ok a => k a
  | Raise e => Raise e
  end.

Notation "x <- r ;; k" := (bind r (fun x => k))
  (at level 61, r at next level, right associativity).
Notation "' pat <- r ;; k" := (bind r (fun x => match x with pat => k end))
  (at level 61, pat pattern, r at next level, right associativity).

(** A [for] loop whose body may raise: the first exception ends the loop. *)
Fixpoint for_each {A S : Type} (body : S -> A -> result S) (xs : list A)
    (st : S) : result S :=
  match xs with
  | [] => Ok st
  | x :: xs' => st' <- body st x ;; for_each body xs' st'
  end.

(* ------------------------------------------------------------------ *)
(** ** glob (non-recursive) *)

Module Glob.

Definition has_magic (s : string) : bool :=
  Str.mem "*" s || Str.mem "?" s || Str.mem "[" s.

Definition _ishidden (name : string) : bool := Str.startswith "." name.

Section Filesystem.

(** The operating system calls [glob] makes: the names in a directory
    ([None] when listing it raises [OSError]), whether a path is a
    directory, whether a path exists. *)
Variable listdir : string -> option (list string).
Variable isdir : string -> bool.
Variable lexists : string -> bool.

(** [_listdir]: the names that [os.scandir(dirname or '.')] yields, only the
    directories among them when [dironly]; nothing at all on [OSError]. *)
Definition _listdir (dirname : string) (dironly : bool) : list string :=
  let dir := if Str.nonempty dirname then dirname else "." in
  match listdir dir with
  | None => []
  | Some names =>
      if dironly then List.filter (fun n => isdir (PosixPath.join dir n)) names
      else names
  end.

Definition _glob1 (dirname pattern : string) (dironly : bool) : list string :=
  let names := _listdir dirname dironly in
  let names :=
    if _ishidden pattern then names
    else List.filter (fun x => negb (_ishidden x)) names in
  Fnmatch.filter names pattern.

Definition _glob0 (dirname basename : string) (dironly : bool) : list string :=
  if Str.nonempty basename then
    if lexists (PosixPath.join dirname basename) then [basename] else []
  else
    if isdir dirname then [basename] else [].

(** [_iglob] with [recursive=False].  Each call splits off the last path
    component, so the length of the pattern bounds the depth. *)
Fixpoint _iglob (fuel : nat) (pathname : string) (dironly : bool)
    : list string :=
  match fuel with
  | O => []
  | S fuel' =>
      let (dirname, basename) := PosixPath.split pathname in
      if negb (has_magic pathname) then
        if Str.nonempty basename then
          if lexists pathname then [pathname] else []
        else
          if isdir dirname then [pathname] else []
      else if negb (Str.nonempty dirname) then
        _glob1 "" basename dironly
      else
        let dirs :=
          if negb (String.eqb dirname pathname) && has_magic dirname
          then _iglob fuel' dirname true
          else [dirname] in
        let glob_in_dir := if has_magic basename then _glob1 else _glob0 in
        flat_map
          (fun dirname =>
             map (PosixPath.join dirname) (glob_in_dir dirname basename dironly))
          dirs
  end.

Definition glob (pathname : string) : list string :=
  _iglob (S (String.length pathname)) pathname false.

End Filesystem.

End Glob.

(* ------------------------------------------------------------------ *)
(** ** re.findall for the include pattern

    The pattern is: hash, [include], a space, a double quote, a greedy group
    of any characters but newline, a dot, [h], a double quote. *)

Module Re.

Definition newline : ascii := "010"%char.
Definition dquote : ascii := "034"%char.

(** A greedy [.*] followed by a literal: the longest run of characters other
    than newline after which the literal matches.  Returns the run and the
    text after the literal. *)
Fixpoint dotstar_then (lit s : string) : option (string * string) :=
  let here :=
    match Str.strip_prefix lit s with
    | Some r => Some ("", r)
    | None => None
    end in
  match s with
  | EmptyString => here
  | String c s' =>
      if Ascii.eqb c newline then here
      else match dotstar_then lit s' with
           | Some (cap, r) => Some (String c cap, r)
           | None => here
           end
  end.

Definition include_prefix : string := "#include " ++ String dquote "".
Definition include_suffix : string := ".h" ++ String dquote "".

(** The pattern anchored at the start of [s]: the group and the text after
    the match. *)
Definition match_include (s : string) : option (string * string) :=
  match Str.strip_prefix include_prefix s with
  | Some r => dotstar_then include_suffix r
  | None => None
  end.

(** Leftmost non-overlapping matches; [skip] counts the characters still
    covered by the previous match. *)
Fixpoint findall_from (skip : nat) (s : string) : list string :=
  match s with
  | EmptyString => []
  | String _ s' =>
      match skip with
      | S k => findall_from k s'
      | O =>
          match match_include s with
          | Some (cap, rest) =>
              cap :: findall_from (String.length s' - String.length rest) s'
          | None => findall_from 0 s'
          end
      end
  end.

Definition findall_include (text : string) : list string :=
  findall_from 0 text.

End Re.

(* ------------------------------------------------------------------ *)
(** ** json.dumps *)

Module Json.

#[local] Set Warnings "-register-all".

Inductive value : Type :=
| JStr (s : string)
| JList (items : list value)
| JDict (items : list (string * value)).

Definition hex_digit (n : nat) : ascii :=
  nth n ["0"; "1"; "2"; "3"; "4"; "5"; "6"; "7"; "8"; "9";
         "a"; "b"; "c"; "d"; "e"; "f"]%char "0"%char.

Definition backslash : ascii := "\"%char.

(** One character under [ensure_ascii]: the short escapes, [\u00xx] for
    what lies outside [' '..'~'], the character itself otherwise. *)
Definition escape_char (c : ascii) : string :=
  let n := nat_of_ascii c in
  if Ascii.eqb c backslash then "\\"
  else if Ascii.eqb c Re.dquote then String backslash (String Re.dquote "")
  else if Nat.eqb n 8 then "\b"
  else if Nat.eqb n 12 then "\f"
  else if Nat.eqb n 10 then "\n"
  else if Nat.eqb n 13 then "\r"
  else if Nat.eqb n 9 then "\t"
  else if Nat.leb 32 n && Nat.leb n 126 then String c ""
  else "\u00" ++ String (hex_digit (n / 16)) (String (hex_digit (n mod 16)) "").

Fixpoint escape (s : string) : string :=
  match s with
  | EmptyString => ""
  | String c s' => escape_char c ++ escape s'
  end.

Definition encode_str (s : string) : string :=
  String Re.dquote (escape s ++ String Re.dquote "").

(** [json.dumps] with the default separators. *)
Fixpoint dumps (j : value) : string :=
  match j with
  | JStr s => encode_str s
  | JList items => "[" ++ Str.join ", " (map dumps items) ++ "]"
  | JDict items =>
      "{" ++ Str.join ", "
               (map (fun kv => match kv with
                               | (k, v) => encode_str k ++ ": " ++ dumps v
                               end) items) ++ "}"
  end.

End Json.


(* ------------------------------------------------------------------ *)
(** ** The script *)

Module QtMappings.

Definition script_file : string := "generate_qt_mappings.py".

Definition OUTFILEHDR : string :=
  "# Do not edit! This file was generated by the script "
  ++ PosixPath.basename script_file ++ ".".

Definition QOBJECT_SYMBOLS : list string :=
  [ "QObjectList";
    "qFindChildren";
    "qobject_cast";
    "QT_NO_NARROWING_CONVERSIONS_IN_CONNECT";
    "Q_CLASSINFO";
    "Q_DISABLE_COPY";
    "Q_DISABLE_COPY_MOVE";
    "Q_DISABLE_MOVE";
    "Q_EMIT";
    "Q_ENUM";
    "Q_ENUM_NS";
    "Q_FLAG";
    "Q_FLAG_NS";
    "Q_GADGET";
    "Q_INTERFACES";
    "Q_INVOKABLE";
    "Q_NAMESPACE";
    "Q_NAMESPACE_EXPORT";
    "Q_OBJECT";
    "Q_PROPERTY";
    "Q_REVISION";
    "Q_SET_OBJECT_NAME";
    "Q_SIGNAL";
    "Q_SIGNALS";
    "Q_SLOT";
    "Q_SLOTS";
    "emit";
    "slots";
    "signals";
    "SIGNAL";
    "SLOT" ].

(** A symbol rule [(symbol, header)] and an include rule
    [(module, include, header)]. *)
Definition symbol_rule : Type := string * string.
Definition include_rule : Type := string * string * string.

(** [class QtHeader]. *)
Record QtHeader : Type := mkQtHeader {
  headername : string;
  classname : string;
  modulename : string;
  _private_headers : option (list string)
}.

Definition QtHeader__init__ (headername : string) : QtHeader :=
  {| headername := headername;
     classname := PosixPath.basename headername;
     modulename := PosixPath.basename (PosixPath.dirname headername);
     _private_headers := None |}.

Definition jsonline (mapping : Json.value) : string :=
  "  " ++ Json.dumps mapping.

Definition symbol_line (r : symbol_rule) : string :=
  let '(symbol, header) := r in
  let map_to := "<" ++ header ++ ">" in
  jsonline (Json.JDict
    [("symbol", Json.JList [Json.JStr symbol; Json.JStr "private";
                            Json.JStr map_to; Json.JStr "public"])]).

(** The [%]-format of the match pattern of an include rule. *)
Definition map_from_pattern (module include : string) : string :=
  "@[" ++ String Re.dquote "<](" ++ module ++ "/)?" ++ include
  ++ "\.h[" ++ String Re.dquote ">]".

Definition include_line (r : include_rule) : string :=
  let '(module, include, header) := r in
  let map_from := map_from_pattern module include in
  let map_to := "<" ++ header ++ ">" in
  jsonline (Json.JDict
    [("include", Json.JList [Json.JStr map_from; Json.JStr "private";
                             Json.JStr map_to; Json.JStr "public"])]).

Definition build_imp_lines (symbols_map : list symbol_rule)
    (includes_map : list include_rule) : string :=
  let root := [] in
  let root := fold_left (fun root r => root ++ [symbol_line r])%list
                        symbols_map root in
  let root := fold_left (fun root r => root ++ [include_line r])%list
                        includes_map root in
  let lines := "[" ++ String Re.newline "" in
  let lines := lines ++ Str.join ("," ++ String Re.newline "") root in
  let lines := lines ++ String Re.newline ("]" ++ String Re.newline "") in
  lines.

Section Script.

Variable listdir : string -> option (list string).
Variable isdir : string -> bool.
Variable lexists : string -> bool.
(** [open(path, 'r').read()]: the text, or [None] when opening or reading
    raises. *)
Variable read_file : string -> option string.
(** Whether [open(path, 'w')] succeeds. *)
Variable can_write : string -> bool.

(** [QtHeader.get_private_headers]: the list, and the header with its cache
    filled. *)
Definition get_private_headers (self : QtHeader)
    : result (list string * QtHeader) :=
  match _private_headers self with
  | Some cached => Ok (cached, self)
  | None =>
      match read_file (headername self) with
      | None => Raise (IOError (headername self))
      | Some text =>
          let included := Re.findall_include text in
          Ok (included,
              {| headername := headername self;
                 classname := classname self;
                 modulename := modulename self;
                 _private_headers := Some included |})
      end
  end.

Definition rule_lists : Type := list symbol_rule * list include_rule.

Definition add_mapping_rules (header : QtHeader) (maps : rule_lists)
    : result rule_lists :=
  let '(symbols_map, includes_map) := maps in
  let symbols_map :=
    (symbols_map ++ [(classname header, classname header)])%list in
  '(private, header) <- get_private_headers header ;;
  let includes_map :=
    fold_left
      (fun includes_map include =>
         includes_map ++ [(modulename header, include, classname header)])%list
      private includes_map in
  Ok (symbols_map, includes_map).

(** The state of the first loop of [main]. *)
Record scan_state : Type := mkScan {
  st_maps : rule_lists;
  st_deferred : list QtHeader
}.

Definition scan_body (st : scan_state) (header : string) : result scan_state :=
  if isdir header then Ok st
  else
    let header := QtHeader__init__ header in
    if String.eqb (classname header) "QInternal" then Ok st
    else if String.eqb (classname header) (modulename header) then
      Ok {| st_maps := st_maps st;
            st_deferred := (st_deferred st ++ [header])%list |}
    else
      maps' <- add_mapping_rules header (st_maps st) ;;
      Ok {| st_maps := maps'; st_deferred := st_deferred st |}.

Definition manual_symbols : list symbol_rule :=
  ([] ++ [("qDebug", "QtGlobal")]
      ++ map (fun symbol => (symbol, "QObject")) QOBJECT_SYMBOLS)%list.

Definition manual_includes : list include_rule :=
  ([] ++ [("QtCore", "qnamespace", "Qt")])%list.

(** [main] up to the point where the rule lists are complete. *)
Definition collect_rules (qt_include_dir : string) : result rule_lists :=
  let symbols_map := manual_symbols in
  let includes_map := manual_includes in
  let deferred_headers := [] in
  let headers :=
    Glob.glob listdir isdir lexists
      (PosixPath.join qt_include_dir "**/*[!.h]") in
  st <- for_each scan_body headers
          {| st_maps := (symbols_map, includes_map);
             st_deferred := deferred_headers |} ;;
  for_each (fun maps header => add_mapping_rules header maps)
           (st_deferred st) (st_maps st).

(** What the two [print] calls write. *)
Definition document (lines : string) : string :=
  OUTFILEHDR ++ String Re.newline (lines ++ String Re.newline "").

(** [main]: the exit status or the exception, and the content of
    [output_file] afterwards ([None]: no such file), given its content
    before. *)
Definition main (qt_include_dir output_file : string)
    (before : option string) : result nat * option string :=
  match collect_rules qt_include_dir with
  | Raise e => (Raise e, before)
  | Ok (symbols_map, includes_map) =>
      let lines := build_imp_lines symbols_map includes_map in
      if can_write output_file then (Ok 0, Some (document lines))
      else (Raise (IOError output_file), before)
  end.

End Script.

End QtMappings.

Import QtMappings.

(* ------------------------------------------------------------------ *)
(** ** Describing a scan

    Names for what the statements below talk about: the entries of the
    tree, the headers the first loop of [main] goes through, and what each
    contributes.  Nothing here is executed by the script. *)

Module Scan.

(** A directory entry's name: not empty, no slash. *)
Definition valid_name (n : string) : bool :=
  Str.nonempty n && negb (Str.mem "/" n).

(** What [os.path.join] puts in front of its second argument. *)
Definition join_prefix (a : string) : string :=
  if negb (Str.nonempty a) || PosixPath.ends_sep a then a else a ++ "/".

(** What the pattern of the file level asks of a name: a last character
    that is neither a dot nor an [h]. *)
Definition last_ok (n : string) : bool :=
  match Str.last n with
  | Some c => negb (Ascii.eqb c ".") && negb (Ascii.eqb c "h")
  | None => false
  end.

(** The root as [glob] sees it: [qt_include_dir] without trailing slashes. *)
Definition glob_root (qt_include_dir : string) : string :=
  PosixPath.strip_head (join_prefix qt_include_dir).

Definition dir_or_dot (dirname : string) : string :=
  if Str.nonempty dirname then dirname else ".".

(** The path of the directory of a module, as [glob] forms it. *)
Definition module_path (qt_include_dir d : string) : string :=
  if Str.nonempty (glob_root qt_include_dir)
  then PosixPath.join (glob_root qt_include_dir) d
  else d.

(** What precedes the module name in every path [glob] returns. *)
Definition glob_prefix (qt_include_dir : string) : string :=
  if Str.nonempty (glob_root qt_include_dir)
  then join_prefix (glob_root qt_include_dir)
  else "".

Definition is_excluded (p : string) : bool :=
  String.eqb (classname (QtHeader__init__ p)) "QInternal".

Definition is_umbrella (p : string) : bool :=
  String.eqb (classname (QtHeader__init__ p)) (modulename (QtHeader__init__ p)).

(** The module and class names of a header path. *)
Definition key (p : string) : string * string :=
  (modulename (QtHeader__init__ p), classname (QtHeader__init__ p)).

(** Text that follows a match on a line: nothing, or the end of the line. *)
Definition line_end (tail : string) : Prop :=
  tail = "" \/ exists rest, tail = String Re.newline rest.

Definition symbols_of (p : string) : list symbol_rule :=
  let h := QtHeader__init__ p in [(classname h, classname h)].

Section Filesystem.

Variable listdir : string -> option (list string).
Variable isdir : string -> bool.
Variable lexists : string -> bool.
Variable read_file : string -> option string.

(** Listings hold names, each once. *)
Definition names_valid : Prop :=
  forall dir names, listdir dir = Some names ->
  Forall (fun n => valid_name n = true) names.

Definition names_distinct : Prop :=
  forall dir names, listdir dir = Some names -> NoDup names.

(** The directories the first level of the pattern yields. *)
Definition module_dirs (qt_include_dir : string) : list string :=
  let R := glob_root qt_include_dir in
  if Str.nonempty R
  then map (PosixPath.join R) (Glob._glob1 listdir isdir R "**" true)
  else Glob._glob1 listdir isdir "" "**" true.

(** [d] is a sub-directory of the root that the scan enters. *)
Definition module_entry (qt_include_dir d : string) : Prop :=
  exists names,
    listdir (dir_or_dot (glob_root qt_include_dir)) = Some names /\
    In d names /\
    isdir (PosixPath.join (dir_or_dot (glob_root qt_include_dir)) d) = true /\
    Glob._ishidden d = false.

(** [f] is an entry of the directory of module [d]. *)
Definition file_listed (qt_include_dir d f : string) : Prop :=
  exists names,
    listdir (dir_or_dot (module_path qt_include_dir d)) = Some names /\
    In f names.

(** The directory names, then the file names, that [glob] goes through. *)
Definition module_names (qt_include_dir : string) : list string :=
  Glob._glob1 listdir isdir (glob_root qt_include_dir) "**" true.

Definition file_names (qt_include_dir d : string) : list string :=
  Glob._glob1 listdir isdir (module_path qt_include_dir d) "*[!.h]" false.

Definition glob_results (qt_include_dir : string) : list string :=
  Glob.glob listdir isdir lexists (PosixPath.join qt_include_dir "**/*[!.h]").

(** The lists of the scan, over any enumeration: what passes the
    [os.path.isdir] test and the test on the class name, and of these the
    headers handled at once and the headers queued. *)
Definition processed_of (hs : list string) : list string :=
  List.filter (fun p => negb (is_excluded p))
    (List.filter (fun p => negb (isdir p)) hs).

Definition immediate_of (hs : list string) : list string :=
  List.filter (fun p => negb (is_umbrella p)) (processed_of hs).

Definition deferred_of (hs : list string) : list string :=
  List.filter is_umbrella (processed_of hs).

(** The paths that pass the [os.path.isdir] test. *)
Definition candidates (qt_include_dir : string) : list string :=
  List.filter (fun p => negb (isdir p)) (glob_results qt_include_dir).

(** The headers that reach [add_mapping_rules], sooner or later. *)
Definition processed (qt_include_dir : string) : list string :=
  processed_of (glob_results qt_include_dir).

Definition immediate (qt_include_dir : string) : list string :=
  immediate_of (glob_results qt_include_dir).

Definition deferred (qt_include_dir : string) : list string :=
  deferred_of (glob_results qt_include_dir).

(** The headers that reach [add_mapping_rules], in the order they do. *)
Definition output_order (qt_include_dir : string) : list string :=
  (immediate qt_include_dir ++ deferred qt_include_dir)%list.

Definition unreadable (p : string) : bool :=
  match read_file p with Some _ => false | None => true end.

(** The names [get_private_headers] extracts from a readable header. *)
Definition private_names (p : string) : list string :=
  match read_file p with
  | Some text => Re.findall_include text
  | None => []
  end.

Definition includes_of (p : string) : list include_rule :=
  let h := QtHeader__init__ p in
  map (fun n => (modulename h, n, classname h)) (private_names p).

End Filesystem.

End Scan.

(* ------------------------------------------------------------------ *)
(** ** Reading a mapping file

    The reader of the documented file format: lines starting with a hash
    are comments, the rest is one JSON array whose elements are objects with
    a single key, [symbol] or [include], and a four-element array of
    strings.  It is the counterpart of [build_imp_lines], written from the
    format's description and not from the script. *)

Module ImpFormat.













(** Cut at the first occurrence of a character. *)
Fixpoint cut_at (c : ascii) (s : string) : option (string * string) :=
  match s with
  | EmptyString => None
  | String x s' =>
      if Ascii.eqb x c then Some ("", s')
      else match cut_at c s' with
           | Some (a, r) => Some (String x a, r)
           | None => None
           end
  end.






End ImpFormat.

(* ------------------------------------------------------------------ *)
(** ** The layout of a mapping file *)

Module Layout.










End Layout.

(* ------------------------------------------------------------------ *)
(** ** Counting rules *)

Definition symbol_rule_eq_dec (x y : symbol_rule) : {x = y} + {x <> y}.
Proof. decide equality; apply string_dec. Defined.

Definition include_rule_eq_dec (x y : include_rule) : {x = y} + {x <> y}.
Proof.
  decide equality; [apply string_dec|].
  decide equality; apply string_dec.
Defined.

(* ------------------------------------------------------------------ *)
(** ** A small include tree

    A tree with three modules, a file and a hidden directory next to them,
    a sub-directory inside a module, two umbrella headers, a QInternal
    header that cannot be read, a header that includes the same file
    twice, and one class name present in two modules. *)

Module Example.

Definition lookup {A : Type} (table : list (string * A)) (p : string)
    : option A :=
  match find (fun kv => String.eqb (fst kv) p) table with
  | Some kv => Some (snd kv)
  | None => None
  end.

Definition line (s : string) : string := s ++ String Re.newline "".

(** A line with a quoted include of [name.h]. *)
Definition quoted (name : string) : string :=
  line (Re.include_prefix ++ name ++ Re.include_suffix).

Definition listings : list (string * list string) :=
  [ ("qt", ["QtCore"; "QtGui"; "QtWidgets"; "README"; ".git"]);
    ("qt/QtCore",
     ["QObject"; "QtCore"; "qobject.h"; "QHash"; "QInternal"; "Qt";
      "private"]);
    ("qt/QtCore/private", ["qobject_p.h"; "QDeep"]);
    ("qt/QtGui", ["QWidget"; "QAction"; "QtGui"]);
    ("qt/QtWidgets", ["QAction"]);
    ("qt/.git", ["HEAD"]) ].

Definition files : list (string * option string) :=
  [ ("qt/README", Some (line "Qt headers"));
    ("qt/QtCore/QObject", Some (quoted "qobject"));
    ("qt/QtCore/QtCore", Some (quoted "qobject" ++ quoted "qnamespace"));
    ("qt/QtCore/qobject.h", Some (line "class QObject;"));
    ("qt/QtCore/QHash", Some (quoted "qhash"));
    ("qt/QtCore/QInternal", None);
    ("qt/QtCore/Qt", Some (quoted "qnamespace"));
    ("qt/QtCore/private/qobject_p.h", Some (line "class QObjectPrivate;"));
    ("qt/QtCore/private/QDeep", Some (quoted "qdeep_p"));
    ("qt/QtGui/QWidget",
     Some (quoted "qwidget" ++ line "#include <QtCore/qobject.h>"
           ++ quoted "qwidget"));
    ("qt/QtGui/QAction", Some (quoted "qaction"));
    ("qt/QtGui/QtGui", Some (quoted "qwidget"));
    ("qt/QtWidgets/QAction", Some (quoted "qaction"));
    ("qt/.git/HEAD", Some (line "ref: refs/heads/dev")) ].

Definition listdir (p : string) : option (list string) := lookup listings p.

Definition isdir (p : string) : bool :=
  match lookup listings p with Some _ => true | None => false end.

Definition lexists (p : string) : bool :=
  isdir p || match lookup files p with Some _ => true | None => false end.

Definition read_file (p : string) : option string :=
  match lookup files p with
  | Some content => content
  | None => None
  end.


Definition can_write (p : string) : bool := true.

(** The rules the scan of this tree adds to the manual ones. *)
Definition scanned_symbols : list symbol_rule :=
  [ ("QObject", "QObject"); ("Qt", "Qt"); ("QWidget", "QWidget");
    ("QAction", "QAction"); ("QAction", "QAction");
    ("QtCore", "QtCore"); ("QtGui", "QtGui") ].

Definition scanned_includes : list include_rule :=
  [ ("QtCore", "qobject", "QObject"); ("QtCore", "qnamespace", "Qt");
    ("QtGui", "qwidget", "QWidget"); ("QtGui", "qwidget", "QWidget");
    ("QtGui", "qaction", "QAction"); ("QtWidgets", "qaction", "QAction");
    ("QtCore", "qobject", "QtCore"); ("QtCore", "qnamespace", "QtCore");
    ("QtGui", "qwidget", "QtGui") ].

Definition symbols : list symbol_rule :=
  (manual_symbols ++ scanned_symbols)%list.

Definition includes : list include_rule :=
  (manual_includes ++ scanned_includes)%list.

Fixpoint nodupb (l : list string) : bool :=
  match l with
  | [] => true
  | x :: rest => negb (existsb (String.eqb x) rest) && nodupb rest
  end.

End Example.

(* ------------------------------------------------------------------ *)
(** ** Describing header text and output text *)

Module Text.




(** The lines of a header, by what they hold. *)
Inductive header_line : Type :=
| QuotedInclude (name : string)
| AngleInclude (name : string)
| Plain (text : string).

Definition render_line (l : header_line) : string :=
  match l with
  | QuotedInclude name =>
      Re.include_prefix ++ name ++ Re.include_suffix ++ String Re.newline ""
  | AngleInclude name => "#include <" ++ name ++ ".h>" ++ String Re.newline ""
  | Plain text => text ++ String Re.newline ""
  end.

Fixpoint render_lines (ls : list header_line) : string :=
  match ls with
  | [] => ""
  | l :: rest => render_line l ++ render_lines rest
  end.

(** A quoted name stays on its line; the other lines hold no hash. *)
Definition line_ok (l : header_line) : bool :=
  match l with
  | QuotedInclude name => negb (Str.mem Re.newline name)
  | AngleInclude name => negb (Str.mem "#" name)
  | Plain text => negb (Str.mem "#" text)
  end.

Fixpoint quoted_names (ls : list header_line) : list string :=
  match ls with
  | [] => []
  | QuotedInclude name :: rest => name :: quoted_names rest
  | _ :: rest => quoted_names rest
  end.

(** [k] slashes. *)
Fixpoint slashes (k : nat) : string :=
  match k with
  | O => ""
  | S k' => String "/" (slashes k')
  end.

End Text.

Module ExampleMore.


(** The example tree with other content in files the scan skips. *)
Definition read_file_other (p : string) : option string :=
  if String.eqb p "qt/QtCore/QInternal" then Some (Example.quoted "qinternal")
  else if String.eqb p "qt/README" then None
  else if String.eqb p "qt/QtCore/QHash" then None
  else Example.read_file p.

Definition widget_lines : list Text.header_line :=
  [ Text.Plain "// widget";
    Text.QuotedInclude "qwidget";
    Text.AngleInclude "QtCore/qobject";
    Text.QuotedInclude "qwidget_p" ].

End ExampleMore.

(* ------------------------------------------------------------------ *)
(** * Properties *)

#[local] Arguments Ascii.eqb : simpl never.
#[local] Arguments String.eqb : simpl never.
#[local] Arguments Nat.leb : simpl never.
#[local] Arguments Nat.eqb : simpl never.

(** ** Strings *)

Module StrFacts.

Lemma app_nil_r (s : string) : s ++ "" = s.
Proof. induction s; simpl; congruence. Qed.

Lemma app_assoc (a b c : string) : (a ++ b) ++ c = a ++ b ++ c.
Proof. induction a; simpl; congruence. Qed.

Lemma length_app (a b : string) :
  String.length (a ++ b) = String.length a + String.length b.
Proof. induction a; simpl; congruence. Qed.

Lemma mem_app (c : ascii) (a b : string) :
  Str.mem c (a ++ b) = Str.mem c a || Str.mem c b.
Proof.
  induction a as [|x a IH]; simpl; [reflexivity|].
  now rewrite IH, orb_assoc.
Qed.

Lemma last_cons (x : ascii) (s : string) :
  Str.nonempty s = true -> Str.last (String x s) = Str.last s.
Proof. destruct s; simpl; [discriminate | reflexivity]. Qed.

Lemma last_app_cons (a : string) (c : ascii) (b : string) :
  Str.last (a ++ String c b) = Str.last (String c b).
Proof.
  induction a as [|x a IH]; [reflexivity|].
  change (String x a ++ String c b) with (String x (a ++ String c b)).
  rewrite last_cons; [exact IH | now destruct a].
Qed.

Lemma nonempty_app_r (a b : string) :
  Str.nonempty b = true -> Str.nonempty (a ++ b) = true.
Proof. destruct a; simpl; auto. Qed.

Lemma nonempty_last (s : string) :
  Str.nonempty s = true -> exists c, Str.last s = Some c.
Proof.
  induction s as [|x s IH]; [discriminate|]; intros _.
  destruct s as [|y s]; [now exists x|].
  rewrite last_cons by reflexivity. now apply IH.
Qed.

Lemma last_mem (s : string) (c : ascii) :
  Str.last s = Some c -> Str.mem c s = true.
Proof.
  induction s as [|x s IH]; [discriminate|].
  destruct s as [|y s].
  - simpl. intros [= ->]. now rewrite Ascii.eqb_refl.
  - rewrite last_cons by reflexivity. intros H.
    change (Str.mem c (String x (String y s)))
      with (Ascii.eqb c x || Str.mem c (String y s)).
    rewrite (IH H). apply orb_true_r.
Qed.

Lemma strip_prefix_app (p s : string) : Str.strip_prefix p (p ++ s) = Some s.
Proof.
  induction p as [|a p IH]; simpl; [reflexivity|].
  now rewrite Ascii.eqb_refl.
Qed.

Lemma strip_prefix_inv (p s r : string) :
  Str.strip_prefix p s = Some r -> s = p ++ r.
Proof.
  revert s; induction p as [|a p IH]; simpl; intros s H.
  - congruence.
  - destruct s as [|b s]; [discriminate|].
    destruct (Ascii.eqb_spec a b); [|discriminate].
    subst. f_equal. now apply IH.
Qed.

End StrFacts.

(** ** posixpath *)

Module PathFacts.
Import PosixPath StrFacts Scan.

Lemma is_sep_mem (c : ascii) : is_sep c = Ascii.eqb "/" c.
Proof. unfold is_sep, sep. apply Ascii.eqb_sym. Qed.

Lemma rsplit_sep_no_sep (t : string) :
  Str.mem "/" t = false -> rsplit_sep t = ("", t).
Proof.
  induction t as [|c t IH]; simpl; [reflexivity|].
  intros H. apply orb_false_iff in H as [Hc Ht].
  rewrite (IH Ht), is_sep_mem, Hc. reflexivity.
Qed.

Lemma rsplit_sep_app (a t : string) :
  a = "" \/ ends_sep a = true ->
  Str.mem "/" t = false ->
  rsplit_sep (a ++ t) = (a, t).
Proof.
  intros Ha Ht. induction a as [|c a IH].
  - now apply rsplit_sep_no_sep.
  - destruct Ha as [Ha|Ha]; [discriminate|].
    destruct a as [|d a].
    + simpl. rewrite (rsplit_sep_no_sep _ Ht).
      unfold ends_sep in Ha. simpl in Ha. now rewrite Ha.
    + change (String c (String d a) ++ t)
        with (String c (String d a ++ t)).
      cbn [rsplit_sep]. fold rsplit_sep.
      rewrite IH; [reflexivity|].
      right. unfold ends_sep in *. now rewrite last_cons in Ha.
Qed.

Lemma ends_sep_app_sep (x : string) : ends_sep (x ++ "/") = true.
Proof. unfold ends_sep. now rewrite last_app_cons. Qed.

Lemma join_prefix_shape (a : string) :
  join_prefix a = "" \/ ends_sep (join_prefix a) = true.
Proof.
  unfold join_prefix. destruct a as [|c a]; [now left|]. right.
  simpl negb. simpl orb.
  destruct (ends_sep (String c a)) eqn:E; [exact E|apply ends_sep_app_sep].
Qed.

Lemma valid_name_no_leading_sep (b : string) :
  valid_name b = true -> Str.startswith "/" b = false.
Proof.
  unfold valid_name. destruct b as [|c b]; [discriminate|].
  simpl. intros H. apply negb_true_iff, orb_false_iff in H as [H _].
  unfold Str.startswith. simpl. now rewrite H.
Qed.

Lemma join_eq (a b : string) :
  Str.startswith "/" b = false -> join a b = join_prefix a ++ b.
Proof.
  intros H. unfold join, join_prefix. rewrite H.
  destruct (negb (Str.nonempty a) || ends_sep a); [reflexivity|].
  now rewrite app_assoc.
Qed.

Lemma valid_name_parts (n : string) :
  valid_name n = true ->
  Str.nonempty n = true /\ Str.mem "/" n = false.
Proof.
  unfold valid_name. intros H. apply andb_true_iff in H as [H1 H2].
  now apply negb_true_iff in H2.
Qed.

(** A name ends in a character that is not a slash. *)
Lemma valid_name_ends (x n : string) :
  valid_name n = true -> ends_sep (x ++ n) = false.
Proof.
  intros H. apply valid_name_parts in H as [Hne Hns].
  destruct n as [|c n]; [discriminate|].
  unfold ends_sep. rewrite last_app_cons.
  destruct (nonempty_last (String c n) eq_refl) as [l Hl].
  rewrite Hl. destruct (is_sep l) eqn:E; [|reflexivity].
  apply last_mem in Hl. rewrite is_sep_mem in E.
  apply Ascii.eqb_eq in E. subst l. congruence.
Qed.

Lemma rstrip_sep_cons (c : ascii) (s : string) :
  rstrip_sep (String c s) =
  match rstrip_sep s with
  | EmptyString => if is_sep c then "" else String c ""
  | r => String c r
  end.
Proof. reflexivity. Qed.

Lemma rstrip_sep_keep (s : string) :
  Str.nonempty s = true -> ends_sep s = false -> rstrip_sep s = s.
Proof.
  induction s as [|c s IH]; [discriminate|]. intros _ He.
  destruct s as [|d s].
  - unfold ends_sep in He. simpl in He. simpl. now rewrite He.
  - assert (Hs : rstrip_sep (String d s) = String d s).
    { apply IH; [reflexivity|].
      unfold ends_sep in *. now rewrite last_cons in He. }
    now rewrite rstrip_sep_cons, Hs.
Qed.

Lemma rstrip_sep_app_sep (s : string) : rstrip_sep (s ++ "/") = rstrip_sep s.
Proof.
  induction s as [|c s IH]; [reflexivity|].
  simpl. now rewrite IH.
Qed.

Lemma all_sep_mem (s : string) (c : ascii) :
  all_sep s = true -> Str.mem c s = true -> is_sep c = true.
Proof.
  induction s as [|x s IH]; simpl; [discriminate|].
  intros H1 H2. apply andb_true_iff in H1 as [Hx Hs].
  apply orb_true_iff in H2 as [H2|H2]; [|now apply IH].
  apply Ascii.eqb_eq in H2. now subst.
Qed.

(** Splitting off a trailing slash after a name gives the name back. *)
Lemma strip_head_name_sep (x n : string) :
  valid_name n = true -> strip_head ((x ++ n) ++ "/") = x ++ n.
Proof.
  intros H. unfold strip_head.
  assert (Hne : Str.nonempty (x ++ n) = true).
  { apply nonempty_app_r. now apply valid_name_parts in H. }
  rewrite nonempty_app_r by reflexivity.
  assert (Hall : all_sep ((x ++ n) ++ "/") = false).
  { destruct (all_sep ((x ++ n) ++ "/")) eqn:E; [|reflexivity].
    destruct (valid_name_parts _ H) as [Hn Hs].
    destruct (nonempty_last _ Hn) as [l Hl].
    assert (Hm : Str.mem l ((x ++ n) ++ "/") = true).
    { rewrite !mem_app, (last_mem _ _ Hl). now rewrite orb_true_r. }
    pose proof (all_sep_mem _ _ E Hm) as Hsep.
    rewrite is_sep_mem in Hsep. apply Ascii.eqb_eq in Hsep. subst l.
    apply last_mem in Hl. congruence. }
  rewrite Hall. simpl.
  rewrite rstrip_sep_app_sep.
  apply rstrip_sep_keep; [exact Hne|now apply valid_name_ends].
Qed.

(** The class and module names of a header path [x/d/f], where [x] is
    empty or ends in a slash. *)
Lemma basename_dir_file (x d f : string) :
  x = "" \/ ends_sep x = true ->
  valid_name d = true -> valid_name f = true ->
  join (x ++ d) f = (x ++ d) ++ "/" ++ f /\
  basename (join (x ++ d) f) = f /\
  basename (dirname (join (x ++ d) f)) = d.
Proof.
  intros Hx Hd Hf.
  assert (Hj : join (x ++ d) f = (x ++ d) ++ "/" ++ f).
  { rewrite join_eq by now apply valid_name_no_leading_sep.
    unfold join_prefix.
    rewrite (valid_name_ends x _ Hd), nonempty_app_r
      by now apply valid_name_parts in Hd.
    simpl. now rewrite app_assoc. }
  assert (Hsplit : rsplit_sep (join (x ++ d) f) = ((x ++ d) ++ "/", f)).
  { rewrite Hj, <- app_assoc. apply rsplit_sep_app.
    - right. apply ends_sep_app_sep.
    - now apply valid_name_parts in Hf. }
  split; [exact Hj|]. unfold basename, dirname. rewrite Hsplit. simpl.
  split; [reflexivity|].
  rewrite strip_head_name_sep by assumption.
  rewrite rsplit_sep_app; [reflexivity|exact Hx|].
  now apply valid_name_parts in Hd.
Qed.

End PathFacts.

(** ** fnmatch and glob *)

Module GlobFacts.
Import StrFacts PathFacts Scan.

Lemma match_items_star (rest : list Fnmatch.item) (s : string) :
  Fnmatch.match_items (Fnmatch.Star :: rest) s =
  Fnmatch.match_items rest s ||
  match s with
  | EmptyString => false
  | String _ s' => Fnmatch.match_items (Fnmatch.Star :: rest) s'
  end.
Proof. destruct s; reflexivity. Qed.

(** The pattern of the directory level matches every name. *)
Lemma fnmatch_star_star (n : string) : Fnmatch.fnmatch n "**" = true.
Proof.
  unfold Fnmatch.fnmatch.
  change (Fnmatch.translate (String.length "**") "**")
    with [Fnmatch.Star; Fnmatch.Star].
  assert (H : forall s, Fnmatch.match_items [Fnmatch.Star] s = true).
  { induction s as [|c s IH]; [reflexivity|].
    rewrite match_items_star, IH. apply orb_true_r. }
  now rewrite match_items_star, H.
Qed.

Lemma fnmatch_not_dot_h (n : string) :
  Fnmatch.fnmatch n "*[!.h]" = last_ok n.
Proof.
  unfold Fnmatch.fnmatch.
  change (Fnmatch.translate (String.length "*[!.h]") "*[!.h]")
    with [Fnmatch.Star; Fnmatch.Class true ".h"].
  induction n as [|c n IH]; [reflexivity|].
  rewrite match_items_star, IH.
  destruct n as [|d n].
  - unfold last_ok. simpl.
    change (Fnmatch.class_mem c ".h")
      with (Ascii.eqb c "." || (Ascii.eqb c "h" || false)).
    destruct (Ascii.eqb c "."), (Ascii.eqb c "h"); reflexivity.
  - unfold last_ok at 2. rewrite last_cons by reflexivity.
    fold (last_ok (String d n)).
    cbn [Fnmatch.match_items Str.nonempty negb].
    now rewrite andb_false_r.
Qed.

Lemma endswith_last (suffix s : string) :
  Str.nonempty suffix = true ->
  Str.endswith suffix s = true -> Str.last s = Str.last suffix.
Proof.
  intros Hn. induction s as [|c s IH].
  - simpl. rewrite orb_false_r. intros H.
    apply String.eqb_eq in H. now subst.
  - intros H. simpl in H. apply orb_true_iff in H as [H|H].
    + apply String.eqb_eq in H. now subst.
    + specialize (IH H). rewrite <- IH. apply last_cons.
      destruct s; [|reflexivity].
      simpl in H. rewrite orb_false_r in H.
      apply String.eqb_eq in H. now subst.
Qed.

(** A name with the extension [.h] never passes the file-level pattern. *)
Lemma dot_h_not_matched (n : string) :
  Str.endswith ".h" n = true -> Fnmatch.fnmatch n "*[!.h]" = false.
Proof.
  intros H. rewrite fnmatch_not_dot_h. unfold last_ok.
  now rewrite (endswith_last ".h" n eq_refl H).
Qed.

Lemma has_magic_app (a b : string) :
  Glob.has_magic (a ++ b) = Glob.has_magic a || Glob.has_magic b.
Proof.
  unfold Glob.has_magic. rewrite !mem_app.
  destruct (Str.mem "*" a), (Str.mem "?" a), (Str.mem "[" a),
    (Str.mem "*" b), (Str.mem "?" b), (Str.mem "[" b); reflexivity.
Qed.

Lemma rstrip_sep_mem (c : ascii) (s : string) :
  Str.mem c (PosixPath.rstrip_sep s) = true -> Str.mem c s = true.
Proof.
  induction s as [|x s IH]; [easy|].
  rewrite rstrip_sep_cons.
  destruct (PosixPath.rstrip_sep s) as [|y r].
  - destruct (PosixPath.is_sep x); [easy|].
    simpl. rewrite orb_false_r. intros ->. reflexivity.
  - intros H.
    change (Str.mem c (String x (String y r)))
      with (Ascii.eqb c x || Str.mem c (String y r)) in H.
    simpl. apply orb_true_iff in H as [H|H].
    + now rewrite H.
    + rewrite (IH H). apply orb_true_r.
Qed.

Lemma has_magic_strip_head (s : string) :
  Glob.has_magic s = false ->
  Glob.has_magic (PosixPath.strip_head s) = false.
Proof.
  unfold PosixPath.strip_head.
  destruct (Str.nonempty s && negb (PosixPath.all_sep s)); [|easy].
  unfold Glob.has_magic. intros H.
  apply orb_false_iff in H as [H H3]. apply orb_false_iff in H as [H1 H2].
  assert (G : forall c, Str.mem c s = false ->
                        Str.mem c (PosixPath.rstrip_sep s) = false).
  { intros c Hc. destruct (Str.mem c (PosixPath.rstrip_sep s)) eqn:E;
      [|reflexivity].
    apply rstrip_sep_mem in E. congruence. }
  now rewrite (G _ H1), (G _ H2), (G _ H3).
Qed.

Lemma has_magic_join_prefix (s : string) :
  Glob.has_magic s = false -> Glob.has_magic (join_prefix s) = false.
Proof.
  intros H. unfold join_prefix.
  destruct (negb (Str.nonempty s) || PosixPath.ends_sep s); [exact H|].
  now rewrite has_magic_app, H.
Qed.

(** The two splits [_iglob] performs on the pattern of [main]. *)
Lemma split_file_level (P : string) :
  PosixPath.split (P ++ "**/*[!.h]") = (P ++ "**", "*[!.h]").
Proof.
  unfold PosixPath.split.
  change (P ++ "**/*[!.h]") with (P ++ "**/" ++ "*[!.h]").
  rewrite <- app_assoc.
  rewrite rsplit_sep_app; [| |reflexivity].
  - change (P ++ "**/") with (P ++ "**" ++ "/"). rewrite <- app_assoc.
    now rewrite strip_head_name_sep.
  - right. change (P ++ "**/") with (P ++ "**" ++ "/").
    rewrite <- app_assoc. apply ends_sep_app_sep.
Qed.

Lemma split_dir_level (a : string) :
  PosixPath.split (join_prefix a ++ "**") =
  (PosixPath.strip_head (join_prefix a), "**").
Proof.
  unfold PosixPath.split.
  now rewrite rsplit_sep_app by (apply join_prefix_shape || reflexivity).
Qed.

Section Filesystem.

Variable listdir : string -> option (list string).
Variable isdir : string -> bool.
Variable lexists : string -> bool.

Abbreviation _glob1 := (Glob._glob1 listdir isdir).
Abbreviation _iglob := (Glob._iglob listdir isdir lexists).
Abbreviation glob := (Glob.glob listdir isdir lexists).
Abbreviation module_dirs := (Scan.module_dirs listdir isdir).

Lemma _iglob_S (fuel : nat) (pathname : string) (dironly : bool) :
  _iglob (S fuel) pathname dironly =
  let (dirname, basename) := PosixPath.split pathname in
  if negb (Glob.has_magic pathname) then
    if Str.nonempty basename then
      if lexists pathname then [pathname] else []
    else
      if isdir dirname then [pathname] else []
  else if negb (Str.nonempty dirname) then
    _glob1 "" basename dironly
  else
    let dirs :=
      if negb (String.eqb dirname pathname) && Glob.has_magic dirname
      then _iglob fuel dirname true
      else [dirname] in
    let glob_in_dir :=
      if Glob.has_magic basename then _glob1
      else Glob._glob0 isdir lexists in
    flat_map
      (fun dirname =>
         map (PosixPath.join dirname) (glob_in_dir dirname basename dironly))
      dirs.
Proof. reflexivity. Qed.

(** [glob] on the pattern of [main], for a root without wildcard
    characters: the files matched in each matched directory. *)
Lemma glob_eq (qt_include_dir : string) :
  Glob.has_magic qt_include_dir = false ->
  glob (PosixPath.join qt_include_dir "**/*[!.h]") =
  flat_map
    (fun dirname =>
       map (PosixPath.join dirname) (_glob1 dirname "*[!.h]" false))
    (module_dirs qt_include_dir).
Proof.
  intros Hroot. unfold Glob.glob.
  rewrite join_eq by reflexivity.
  set (P := join_prefix qt_include_dir).
  assert (HP : Glob.has_magic P = false) by now apply has_magic_join_prefix.
  rewrite _iglob_S, split_file_level.
  rewrite has_magic_app, orb_true_r by reflexivity.
  rewrite nonempty_app_r by reflexivity.
  cbn [negb].
  assert (Hneq : String.eqb (P ++ "**") (P ++ "**/*[!.h]") = false).
  { apply String.eqb_neq. intros E.
    apply (f_equal String.length) in E. rewrite !length_app in E.
    simpl in E. lia. }
  rewrite Hneq, has_magic_app, orb_true_r by reflexivity.
  cbn [negb andb].
  change (Glob.has_magic "*[!.h]") with true. cbv iota.
  f_equal.
  rewrite length_app, Nat.add_comm. cbn [String.length Nat.add].
  rewrite _iglob_S. unfold P at 1. rewrite split_dir_level.
  fold P. rewrite has_magic_app, orb_true_r by reflexivity.
  cbn [negb]. unfold Scan.module_dirs, glob_root. fold P.
  destruct (Str.nonempty (PosixPath.strip_head P)); [|reflexivity].
  cbn [negb]. rewrite (has_magic_strip_head _ HP), andb_false_r.
  change (Glob.has_magic "**") with true. cbv iota.
  simpl. apply List.app_nil_r.
Qed.

End Filesystem.

End GlobFacts.

(** ** The two loops of [main] *)

Module ListFacts.

Lemma fold_left_snoc {A B : Type} (g : A -> B) (xs : list A) (acc : list B) :
  fold_left (fun acc x => acc ++ [g x])%list xs acc = (acc ++ map g xs)%list.
Proof.
  revert acc. induction xs as [|x xs IH]; intros acc; simpl.
  - now rewrite List.app_nil_r.
  - now rewrite IH, <- List.app_assoc.
Qed.


Lemma find_app {A : Type} (f : A -> bool) (l1 l2 : list A) :
  find f (l1 ++ l2)%list =
  match find f l1 with
  | Some x => Some x
  | None => find f l2
  end.
Proof.
  induction l1 as [|a l1 IH]; simpl; [reflexivity|].
  now destruct (f a).
Qed.

Lemma partition_perm {A : Type} (f : A -> bool) (l : list A) :
  Permutation.Permutation
    (List.filter (fun x => negb (f x)) l ++ List.filter f l)%list l.
Proof.
  induction l as [|a l IH]; simpl; [constructor|].
  destruct (f a); simpl.
  - apply Permutation.Permutation_sym, Permutation.Permutation_cons_app.
    now apply Permutation.Permutation_sym.
  - now constructor.
Qed.

End ListFacts.

Module ScanFacts.
Import ListFacts Scan.

Section Script.

Variable listdir : string -> option (list string).
Variable isdir : string -> bool.
Variable lexists : string -> bool.
Variable read_file : string -> option string.
Variable can_write : string -> bool.

Abbreviation get_private_headers := (QtMappings.get_private_headers read_file).
Abbreviation add_mapping_rules := (QtMappings.add_mapping_rules read_file).
Abbreviation scan_body := (QtMappings.scan_body isdir read_file).
Abbreviation collect_rules :=
  (QtMappings.collect_rules listdir isdir lexists read_file).
Abbreviation main :=
  (QtMappings.main listdir isdir lexists read_file can_write).
Abbreviation glob_results := (Scan.glob_results listdir isdir lexists).
Abbreviation processed := (Scan.processed listdir isdir lexists).
Abbreviation immediate := (Scan.immediate listdir isdir lexists).
Abbreviation deferred := (Scan.deferred listdir isdir lexists).
Abbreviation output_order := (Scan.output_order listdir isdir lexists).
Abbreviation processed_of := (Scan.processed_of isdir).
Abbreviation immediate_of := (Scan.immediate_of isdir).
Abbreviation deferred_of := (Scan.deferred_of isdir).
Abbreviation unreadable := (Scan.unreadable read_file).
Abbreviation private_names := (Scan.private_names read_file).
Abbreviation includes_of := (Scan.includes_of read_file).

Lemma get_private_headers_fresh (p : string) :
  get_private_headers (QtHeader__init__ p) =
  match read_file p with
  | None => Raise (IOError p)
  | Some text =>
      Ok (Re.findall_include text,
          {| headername := p;
             classname := PosixPath.basename p;
             modulename := PosixPath.basename (PosixPath.dirname p);
             _private_headers := Some (Re.findall_include text) |})
  end.
Proof. reflexivity. Qed.

Lemma add_mapping_rules_fresh (p : string) (syms : list symbol_rule)
    (incs : list include_rule) :
  add_mapping_rules (QtHeader__init__ p) (syms, incs) =
  if unreadable p then Raise (IOError p)
  else Ok ((syms ++ symbols_of p)%list, (incs ++ includes_of p)%list).
Proof.
  unfold QtMappings.add_mapping_rules, Scan.unreadable.
  rewrite get_private_headers_fresh.
  unfold Scan.includes_of, Scan.private_names, symbols_of.
  destruct (read_file p) as [text|]; [|reflexivity].
  cbn [bind]. now rewrite fold_left_snoc.
Qed.

(** The first loop: it stops at the first unreadable header among those
    handled at once, and otherwise appends their rules in order and queues
    the umbrella headers. *)
Lemma scan_loop (hs : list string) (st : scan_state) :
  for_each scan_body hs st =
  match find unreadable (immediate_of hs) with
  | Some q => Raise (IOError q)
  | None =>
      Ok {| st_maps :=
              ((fst (st_maps st) ++ flat_map symbols_of (immediate_of hs))%list,
               (snd (st_maps st) ++ flat_map includes_of (immediate_of hs))%list);
            st_deferred :=
              (st_deferred st ++ map QtHeader__init__ (deferred_of hs))%list |}
  end.
Proof.
  revert st. induction hs as [|h hs IH]; intros [[syms incs] dq].
  - simpl. now rewrite !List.app_nil_r.
  - cbn [for_each]. unfold QtMappings.scan_body at 1.
    unfold Scan.immediate_of, Scan.deferred_of, Scan.processed_of in *.
    cbn [List.filter].
    destruct (isdir h); cbn [negb bind List.filter]; [now rewrite IH|].
    fold (is_excluded h). destruct (is_excluded h); cbn [negb List.filter bind];
      [now rewrite IH|].
    fold (is_umbrella h). destruct (is_umbrella h); cbn [negb List.filter bind].
    + rewrite IH. cbn [st_maps st_deferred fst snd map].
      now rewrite <- !List.app_assoc.
    + cbn [st_maps st_deferred]. rewrite add_mapping_rules_fresh.
      cbn [find]. destruct (unreadable h); cbn [bind]; [reflexivity|].
      rewrite IH. cbn [st_maps st_deferred fst snd flat_map].
      now rewrite <- !List.app_assoc.
Qed.

(** The second loop, over the queued headers. *)
Lemma deferred_loop (ds : list string) (syms : list symbol_rule)
    (incs : list include_rule) :
  for_each (fun maps header => add_mapping_rules header maps)
           (map QtHeader__init__ ds) (syms, incs) =
  match find unreadable ds with
  | Some q => Raise (IOError q)
  | None =>
      Ok ((syms ++ flat_map symbols_of ds)%list,
          (incs ++ flat_map includes_of ds)%list)
  end.
Proof.
  revert syms incs. induction ds as [|d ds IH]; intros syms incs.
  - simpl. now rewrite !List.app_nil_r.
  - cbn [map for_each find]. rewrite add_mapping_rules_fresh.
    destruct (unreadable d); cbn [bind]; [reflexivity|].
    rewrite IH. cbn [flat_map]. now rewrite <- !List.app_assoc.
Qed.

(** [collect_rules] in closed form. *)
Lemma collect_rules_eq (qt_include_dir : string) :
  collect_rules qt_include_dir =
  match find unreadable (output_order qt_include_dir) with
  | Some q => Raise (IOError q)
  | None =>
      Ok ((manual_symbols
             ++ flat_map symbols_of (output_order qt_include_dir))%list,
          (manual_includes
             ++ flat_map includes_of (output_order qt_include_dir))%list)
  end.
Proof.
  unfold QtMappings.collect_rules. rewrite scan_loop.
  fold (glob_results qt_include_dir).
  fold (immediate qt_include_dir). fold (deferred qt_include_dir).
  unfold Scan.output_order. rewrite find_app.
  destruct (find unreadable (immediate qt_include_dir)) as [q|];
    cbn [bind]; [reflexivity|].
  cbn [st_maps st_deferred fst snd app]. rewrite deferred_loop.
  destruct (find unreadable (deferred qt_include_dir)); [reflexivity|].
  now rewrite !flat_map_app, <- !List.app_assoc.
Qed.

Lemma collect_rules_ok (qt_include_dir : string) (syms : list symbol_rule)
    (incs : list include_rule) :
  collect_rules qt_include_dir = Ok (syms, incs) ->
  syms = (manual_symbols
            ++ flat_map symbols_of (output_order qt_include_dir))%list /\
  incs = (manual_includes
            ++ flat_map includes_of (output_order qt_include_dir))%list.
Proof.
  rewrite collect_rules_eq.
  destruct (find unreadable (output_order qt_include_dir)); [discriminate|].
  intros [= <- <-]. now split.
Qed.

Lemma output_order_perm (qt_include_dir : string) :
  Permutation.Permutation (output_order qt_include_dir)
                          (processed qt_include_dir).
Proof. apply partition_perm. Qed.

Lemma in_output_order (qt_include_dir p : string) :
  In p (output_order qt_include_dir) <-> In p (processed qt_include_dir).
Proof.
  split; apply Permutation.Permutation_in;
    [|apply Permutation.Permutation_sym]; apply output_order_perm.
Qed.

End Script.

End ScanFacts.

(** ** What the scan discovers *)

Module Discovery.
Import StrFacts PathFacts GlobFacts ListFacts Scan.

Lemma string_app_inv_head (x a b : string) : x ++ a = x ++ b -> a = b.
Proof. induction x as [|c x IH]; simpl; [easy|]. intros [= H]. now apply IH. Qed.

Lemma cut_at_app (c : ascii) (a r : string) :
  Str.mem c a = false ->
  ImpFormat.cut_at c (a ++ String c r) = Some (a, r).
Proof.
  induction a as [|x a IH]; simpl.
  - now rewrite Ascii.eqb_refl.
  - intros H. apply orb_false_iff in H as [Hx Ha].
    rewrite Ascii.eqb_sym, Hx. now rewrite IH.
Qed.

(** Two paths [d/f] with slash-free directory names agree only if both
    components do. *)
Lemma dir_file_inj (d f d' f' : string) :
  Str.mem "/" d = false -> Str.mem "/" d' = false ->
  d ++ "/" ++ f = d' ++ "/" ++ f' -> d = d' /\ f = f'.
Proof.
  intros Hd Hd' E.
  pose proof (cut_at_app "/" d f Hd) as H1.
  pose proof (cut_at_app "/" d' f' Hd') as H2.
  change (String "/" f) with ("/" ++ f) in H1.
  change (String "/" f') with ("/" ++ f') in H2.
  rewrite E, H2 in H1. now injection H1 as -> ->.
Qed.

Lemma flat_map_map {A B C : Type} (f : B -> list C) (g : A -> B) (l : list A) :
  flat_map f (map g l) = flat_map (fun x => f (g x)) l.
Proof. induction l as [|a l IH]; simpl; [reflexivity|]. now rewrite IH. Qed.

Lemma map_flat_map {A B C : Type} (f : A -> list B) (g : B -> C) (l : list A) :
  map g (flat_map f l) = flat_map (fun x => map g (f x)) l.
Proof.
  induction l as [|a l IH]; simpl; [reflexivity|].
  now rewrite map_app, IH.
Qed.

Lemma flat_map_ext_in {A B : Type} (f g : A -> list B) (l : list A) :
  (forall a, In a l -> f a = g a) -> flat_map f l = flat_map g l.
Proof.
  induction l as [|a l IH]; simpl; [reflexivity|]. intros H.
  rewrite (H a) by now left. rewrite IH; [reflexivity|].
  intros b Hb. apply H. now right.
Qed.

Lemma NoDup_flat_map_pair {A B : Type} (g : A -> list B) (l : list A) :
  NoDup l -> (forall a, In a l -> NoDup (g a)) ->
  NoDup (flat_map (fun a => map (pair a) (g a)) l).
Proof.
  induction 1 as [|a l Hnotin Hnd IH]; intros Hg; simpl; [constructor|].
  apply NoDup_app.
  - apply Finite.Injective_map_NoDup; [|apply Hg; now left].
    intros x y [= E]. exact E.
  - apply IH. intros b Hb. apply Hg. now right.
  - intros [a' b'] H1 H2. apply in_map_iff in H1 as [b [[= <- <-] _]].
    apply in_flat_map in H2 as [a2 [Ha2 H2]].
    apply in_map_iff in H2 as [b2 [[= <- <-] _]]. contradiction.
Qed.

Lemma NoDup_map_filter {A B : Type} (k : A -> B) (f : A -> bool) (l : list A) :
  NoDup (map k l) -> NoDup (map k (List.filter f l)).
Proof.
  induction l as [|a l IH]; simpl; [easy|].
  intros H. inversion H as [|? ? Hnotin Hnd]; subst.
  destruct (f a); simpl; [|now apply IH].
  constructor; [|now apply IH].
  intros Hin. apply Hnotin.
  apply in_map_iff in Hin as [x [E Hx]]. apply filter_In in Hx as [Hx _].
  apply in_map_iff. now exists x.
Qed.

Section Filesystem.

Variable listdir : string -> option (list string).
Variable isdir : string -> bool.
Variable lexists : string -> bool.

Abbreviation _glob1 := (Glob._glob1 listdir isdir).
Abbreviation glob_results := (Scan.glob_results listdir isdir lexists).
Abbreviation processed := (Scan.processed listdir isdir lexists).

Lemma in_glob1 (dirname pattern : string) (dironly : bool) (n : string) :
  Glob._ishidden pattern = false ->
  (In n (_glob1 dirname pattern dironly) <->
   exists names,
     listdir (dir_or_dot dirname) = Some names /\ In n names /\
     (dironly = true ->
      isdir (PosixPath.join (dir_or_dot dirname) n) = true) /\
     Glob._ishidden n = false /\ Fnmatch.fnmatch n pattern = true).
Proof.
  intros Hp. unfold Glob._glob1, Glob._listdir, Fnmatch.filter.
  rewrite Hp. fold (dir_or_dot dirname).
  rewrite !filter_In.
  destruct (listdir (dir_or_dot dirname)) as [names|].
  - split.
    + intros [[H1 H2] H3]. exists names. split; [reflexivity|].
      apply negb_true_iff in H2.
      destruct dironly.
      * apply filter_In in H1 as [H1 H4]. now repeat split.
      * repeat split; try assumption. discriminate.
    + intros [names' [[= <-] [H1 [H2 [H3 H4]]]]].
      split; [split|assumption]; [|now rewrite H3].
      destruct dironly; [|assumption].
      apply filter_In. split; [assumption|now apply H2].
  - split.
    + intros [[[] _] _].
    + intros [names [[=] _]].
Qed.

Variable qt_include_dir : string.

Abbreviation R := (glob_root qt_include_dir).
Abbreviation module_path := (Scan.module_path qt_include_dir).
Abbreviation module_entry := (Scan.module_entry listdir isdir qt_include_dir).
Abbreviation file_listed := (Scan.file_listed listdir qt_include_dir).
Abbreviation module_names := (Scan.module_names listdir isdir qt_include_dir).
Abbreviation file_names := (Scan.file_names listdir isdir qt_include_dir).
Abbreviation glob_prefix := (Scan.glob_prefix qt_include_dir).

Lemma glob_results_eq :
  Glob.has_magic qt_include_dir = false ->
  glob_results qt_include_dir =
  flat_map
    (fun d => map (PosixPath.join (module_path d)) (file_names d))
    module_names.
Proof.
  intros H. unfold Scan.glob_results. rewrite glob_eq by assumption.
  unfold module_dirs, Scan.module_names, Scan.file_names, Scan.module_path.
  destruct (Str.nonempty R) eqn:E.
  - now rewrite flat_map_map.
  - destruct R; [reflexivity|discriminate].
Qed.

Lemma in_module_names (d : string) : In d module_names <-> module_entry d.
Proof.
  unfold Scan.module_names, Scan.module_entry.
  rewrite in_glob1 by reflexivity.
  split; intros [names H]; exists names.
  - destruct H as (H1 & H2 & H3 & H4 & _). repeat split; auto.
  - destruct H as (H1 & H2 & H3 & H4). repeat split; auto.
    apply fnmatch_star_star.
Qed.

Lemma in_file_names (d f : string) :
  In f (file_names d) <->
  file_listed d f /\ Glob._ishidden f = false /\ last_ok f = true.
Proof.
  unfold Scan.file_names, Scan.file_listed. rewrite in_glob1 by reflexivity.
  rewrite fnmatch_not_dot_h.
  split.
  - intros [names (H1 & H2 & _ & H4 & H5)]. split; [now exists names|easy].
  - intros [[names [H1 H2]] [H3 H4]]. exists names. now repeat split.
Qed.

(** The paths [glob] returns for a root without wildcard characters. *)
Lemma in_glob_results (p : string) :
  Glob.has_magic qt_include_dir = false ->
  (In p (glob_results qt_include_dir) <->
   exists d f,
     module_entry d /\ file_listed d f /\
     Glob._ishidden f = false /\ last_ok f = true /\
     p = PosixPath.join (module_path d) f).
Proof.
  intros H. rewrite glob_results_eq by assumption. rewrite in_flat_map.
  split.
  - intros [d [Hd Hp]]. apply in_map_iff in Hp as [f [<- Hf]].
    apply in_module_names in Hd. apply in_file_names in Hf as (Hf1 & Hf2 & Hf3).
    now exists d, f.
  - intros (d & f & Hd & Hf & Hh & Hl & ->). exists d.
    split; [now apply in_module_names|].
    apply in_map. now apply in_file_names.
Qed.

Hypothesis Hvalid : names_valid listdir.

Lemma module_entry_valid (d : string) : module_entry d -> valid_name d = true.
Proof.
  intros [names (H1 & H2 & _)].
  pose proof (Hvalid _ _ H1) as V. rewrite Forall_forall in V. now apply V.
Qed.

Lemma file_listed_valid (d f : string) : file_listed d f -> valid_name f = true.
Proof.
  intros [names (H1 & H2)].
  pose proof (Hvalid _ _ H1) as V. rewrite Forall_forall in V. now apply V.
Qed.

Lemma glob_prefix_shape :
  glob_prefix = "" \/ PosixPath.ends_sep glob_prefix = true.
Proof.
  unfold Scan.glob_prefix. destruct (Str.nonempty R); [|now left].
  apply join_prefix_shape.
Qed.

Lemma module_path_eq (d : string) :
  valid_name d = true -> module_path d = glob_prefix ++ d.
Proof.
  intros Hd. unfold Scan.module_path, Scan.glob_prefix.
  destruct (Str.nonempty R); [|reflexivity].
  apply join_eq. now apply valid_name_no_leading_sep.
Qed.

(** A path [root/d/f]: its text, its class name and its module name. *)
Lemma header_of_entry (d f : string) :
  valid_name d = true -> valid_name f = true ->
  let p := PosixPath.join (module_path d) f in
  p = glob_prefix ++ d ++ "/" ++ f /\
  classname (QtHeader__init__ p) = f /\
  modulename (QtHeader__init__ p) = d.
Proof.
  intros Hd Hf p. subst p. rewrite module_path_eq by assumption.
  destruct (basename_dir_file glob_prefix d f glob_prefix_shape Hd Hf)
    as (H1 & H2 & H3).
  cbn [QtHeader__init__ classname modulename].
  rewrite H2, H3, H1, app_assoc. now repeat split.
Qed.

Lemma key_glob_results :
  Glob.has_magic qt_include_dir = false ->
  map key (glob_results qt_include_dir) =
  flat_map (fun d => map (pair d) (file_names d)) module_names.
Proof.
  intros H. rewrite glob_results_eq by assumption.
  rewrite map_flat_map. apply flat_map_ext_in.
  intros d Hd. rewrite map_map. apply map_ext_in. intros f Hf.
  apply in_module_names, module_entry_valid in Hd.
  apply in_file_names in Hf as [Hf _]. apply file_listed_valid in Hf.
  destruct (header_of_entry d f Hd Hf) as (_ & H2 & H3).
  unfold key. now rewrite H2, H3.
Qed.

Hypothesis Hdistinct : names_distinct listdir.

Lemma NoDup_glob1 (dirname pattern : string) (dironly : bool) :
  NoDup (_glob1 dirname pattern dironly).
Proof.
  unfold Glob._glob1, Glob._listdir, Fnmatch.filter.
  destruct (listdir _) as [names|] eqn:E.
  - apply Hdistinct in E.
    apply NoDup_filter.
    destruct (Glob._ishidden pattern), dironly;
      repeat apply NoDup_filter; assumption.
  - apply NoDup_filter.
    destruct (Glob._ishidden pattern); [|apply NoDup_filter]; constructor.
Qed.

(** No two discovered headers share both module and class name. *)
Lemma NoDup_key_glob_results :
  Glob.has_magic qt_include_dir = false ->
  NoDup (map key (glob_results qt_include_dir)).
Proof.
  intros H. rewrite key_glob_results by assumption.
  apply NoDup_flat_map_pair; [apply NoDup_glob1|].
  intros d _. apply NoDup_glob1.
Qed.

Lemma NoDup_key_processed :
  Glob.has_magic qt_include_dir = false ->
  NoDup (map key (processed qt_include_dir)).
Proof.
  intros H. unfold Scan.processed, Scan.processed_of.
  do 2 apply NoDup_map_filter. now apply NoDup_key_glob_results.
Qed.

End Filesystem.

End Discovery.

(** ** The rule lists of a scan *)

Module ScanClaims.
Import StrFacts PathFacts GlobFacts ListFacts ScanFacts Discovery Scan.

Lemma manual_symbols_eq :
  manual_symbols =
  ("qDebug", "QtGlobal") :: map (fun s => (s, "QObject")) QOBJECT_SYMBOLS.
Proof. reflexivity. Qed.

Lemma manual_symbols_not_diagonal (c : string) : ~ In (c, c) manual_symbols.
Proof.
  assert (H : forallb (fun r : symbol_rule => negb (String.eqb (fst r) (snd r)))
                manual_symbols = true) by reflexivity.
  rewrite forallb_forall in H. intros Hin. specialize (H _ Hin).
  simpl in H. now rewrite String.eqb_refl in H.
Qed.

Lemma manual_symbols_not_excluded (s : string) :
  ~ In (s, "QInternal") manual_symbols.
Proof.
  assert (H : forallb (fun r : symbol_rule =>
                         negb (String.eqb (snd r) "QInternal"))
                manual_symbols = true) by reflexivity.
  rewrite forallb_forall in H. intros Hin. specialize (H _ Hin).
  simpl in H. discriminate.
Qed.

Section Script.

Variable listdir : string -> option (list string).
Variable isdir : string -> bool.
Variable lexists : string -> bool.
Variable read_file : string -> option string.
Variable can_write : string -> bool.

Abbreviation get_private_headers := (QtMappings.get_private_headers read_file).
Abbreviation collect_rules :=
  (QtMappings.collect_rules listdir isdir lexists read_file).
Abbreviation main :=
  (QtMappings.main listdir isdir lexists read_file can_write).
Abbreviation glob_results := (Scan.glob_results listdir isdir lexists).
Abbreviation candidates := (Scan.candidates listdir isdir lexists).
Abbreviation processed := (Scan.processed listdir isdir lexists).
Abbreviation immediate := (Scan.immediate listdir isdir lexists).
Abbreviation deferred := (Scan.deferred listdir isdir lexists).
Abbreviation output_order := (Scan.output_order listdir isdir lexists).
Abbreviation unreadable := (Scan.unreadable read_file).
Abbreviation private_names := (Scan.private_names read_file).
Abbreviation includes_of := (Scan.includes_of read_file).
Abbreviation cls p := (classname (QtHeader__init__ p)).
Abbreviation mdl p := (modulename (QtHeader__init__ p)).

Variable qt_include_dir : string.

Lemma processed_not_excluded (p : string) :
  In p (processed qt_include_dir) -> cls p <> "QInternal".
Proof.
  unfold Scan.processed, Scan.processed_of. intros H.
  apply filter_In in H as [_ H].
  apply negb_true_iff in H. now apply String.eqb_neq in H.
Qed.

Lemma in_symbols (r : symbol_rule) (l : list string) :
  In r (flat_map symbols_of l) <-> exists p, In p l /\ r = (cls p, cls p).
Proof.
  rewrite in_flat_map. split; intros [p [H1 H2]]; exists p; split; auto.
  - destruct H2 as [<-|[]]. reflexivity.
  - left. now subst.
Qed.

Lemma in_includes (r : include_rule) (l : list string) :
  In r (flat_map includes_of l) <->
  exists p n, In p l /\ In n (private_names p) /\ r = (mdl p, n, cls p).
Proof.
  rewrite in_flat_map. split.
  - intros [p [H1 H2]]. apply in_map_iff in H2 as [n [<- H2]].
    now exists p, n.
  - intros (p & n & H1 & H2 & ->). exists p. split; [assumption|].
    unfold Scan.includes_of. apply in_map_iff. now exists n.
Qed.

(** C4.  When the scan succeeds, each rule list is the manual rules, then
    the rules of the processed headers whose class name differs from their
    module name, in enumeration order, then the rules of the headers whose
    class name equals their module name: the rules of the umbrella headers
    come after those of all other headers. *)
Theorem umbrella_rules_come_last (syms : list symbol_rule)
    (incs : list include_rule) :
  collect_rules qt_include_dir = Ok (syms, incs) ->
  syms = (manual_symbols
            ++ flat_map symbols_of (immediate qt_include_dir)
            ++ flat_map symbols_of (deferred qt_include_dir))%list /\
  incs = (manual_includes
            ++ flat_map includes_of (immediate qt_include_dir)
            ++ flat_map includes_of (deferred qt_include_dir))%list /\
  (forall p, In p (immediate qt_include_dir) <->
             In p (processed qt_include_dir) /\ cls p <> mdl p) /\
  (forall p, In p (deferred qt_include_dir) <->
             In p (processed qt_include_dir) /\ cls p = mdl p).
Proof.
  intros H. apply collect_rules_ok in H as [-> ->].
  unfold Scan.output_order. rewrite !flat_map_app.
  repeat split; try reflexivity.
  - now apply filter_In in H.
  - apply filter_In in H as [_ H]. apply negb_true_iff in H.
    now apply String.eqb_neq in H.
  - intros [H1 H2]. apply filter_In. split; [assumption|].
    apply negb_true_iff. now apply String.eqb_neq.
  - now apply filter_In in H.
  - apply filter_In in H as [_ H]. now apply String.eqb_eq in H.
  - intros [H1 H2]. apply filter_In. split; [assumption|].
    now apply String.eqb_eq.
Qed.

(** C5.  When the scan succeeds, the symbol rules start with the manual
    symbol rules (qDebug, then one rule per entry of QOBJECT_SYMBOLS) and
    the include rules start with the manual include rule; every rule
    derived from the scan comes after them. *)
Theorem manual_overrides_first (syms : list symbol_rule)
    (incs : list include_rule) :
  collect_rules qt_include_dir = Ok (syms, incs) ->
  syms = ((("qDebug", "QtGlobal")
             :: map (fun s => (s, "QObject")) QOBJECT_SYMBOLS)
            ++ flat_map symbols_of (output_order qt_include_dir))%list /\
  incs = ([("QtCore", "qnamespace", "Qt")]
            ++ flat_map includes_of (output_order qt_include_dir))%list.
Proof.
  intros H. now apply collect_rules_ok in H.
Qed.

(** C7.  A discovered header whose class name is QInternal is not among the
    headers whose rules are added, and when the scan succeeds no symbol
    rule and no include rule of the output maps to QInternal. *)
Theorem excluded_header_has_no_rule (syms : list symbol_rule)
    (incs : list include_rule) :
  collect_rules qt_include_dir = Ok (syms, incs) ->
  (forall p, cls p = "QInternal" -> ~ In p (output_order qt_include_dir)) /\
  (forall s, ~ In (s, "QInternal") syms) /\
  (forall m n, ~ In (m, n, "QInternal") incs).
Proof.
  intros H. apply collect_rules_ok in H as [-> ->].
  assert (G : forall p, cls p = "QInternal" ->
                        ~ In p (output_order qt_include_dir)).
  { intros p Hp Hin. apply in_output_order in Hin.
    now apply processed_not_excluded in Hin. }
  split; [exact G|]. split.
  - intros s Hin. apply in_app_or in Hin as [Hin|Hin].
    + now apply manual_symbols_not_excluded in Hin.
    + apply in_symbols in Hin as [p [Hp [= _ E]]]. now apply (G p).
  - intros m n Hin. apply in_app_or in Hin as [Hin|Hin].
    + destruct Hin as [[=]|[]].
    + apply in_includes in Hin as (p & n' & Hp & _ & [= _ _ E]).
      now apply (G p).
Qed.


Lemma symbols_of_map (l : list string) :
  flat_map symbols_of l = map (fun c => (c, c)) (map (fun p => cls p) l).
Proof. induction l as [|a l IH]; simpl; [reflexivity|]. now rewrite IH. Qed.

(** C2, as the script has it.  When the scan succeeds, the output holds the
    symbol rule (c, c) of a processed header with class name c once for
    each processed header with that class name: at least once, and exactly
    once when no other processed header shares the class name. *)
Theorem symbol_rule_per_header (syms : list symbol_rule)
    (incs : list include_rule) (p : string) :
  collect_rules qt_include_dir = Ok (syms, incs) ->
  In p (processed qt_include_dir) ->
  In (cls p, cls p) syms /\
  count_occ symbol_rule_eq_dec syms (cls p, cls p) =
  count_occ string_dec
    (map (fun q => cls q) (processed qt_include_dir)) (cls p).
Proof.
  intros H Hp. apply collect_rules_ok in H as [-> _]. split.
  - apply in_or_app. right. apply in_symbols. exists p.
    split; [now apply in_output_order|reflexivity].
  - rewrite count_occ_app.
    replace (count_occ symbol_rule_eq_dec manual_symbols (cls p, cls p))
      with 0
      by (symmetry; apply count_occ_not_In, manual_symbols_not_diagonal).
    rewrite symbols_of_map. cbn [Nat.add].
    rewrite <- (count_occ_map (fun c : string => (c, c)) string_dec
                  symbol_rule_eq_dec)
      by (now intros x y [= ->]).
    apply Permutation_count_occ, Permutation_map, output_order_perm.
Qed.

Lemma count_includes_of (p n : string) :
  count_occ include_rule_eq_dec (includes_of p) (mdl p, n, cls p) =
  count_occ string_dec (private_names p) n.
Proof.
  unfold Scan.includes_of. symmetry.
  apply (count_occ_map (fun n : string => (mdl p, n, cls p))).
  now intros x y [= ->].
Qed.

Lemma count_includes_flat (l : list string) (p n : string) :
  NoDup (map key l) -> In p l ->
  count_occ include_rule_eq_dec (flat_map includes_of l) (mdl p, n, cls p) =
  count_occ include_rule_eq_dec (includes_of p) (mdl p, n, cls p).
Proof.
  assert (Zero : forall l', ~ In (key p) (map key l') ->
            count_occ include_rule_eq_dec (flat_map includes_of l')
              (mdl p, n, cls p) = 0).
  { intros l' Hnot. apply count_occ_not_In. intros Hin.
    apply in_includes in Hin as (q & n' & Hq & _ & [= E1 _ E2]).
    apply Hnot, in_map_iff. exists q. split; [|assumption].
    unfold key. cbn [modulename classname QtHeader__init__] in *.
    congruence. }
  induction l as [|a l IH]; [easy|].
  cbn [map flat_map]. intros Hnd Hin. rewrite count_occ_app.
  inversion Hnd as [|? ? Hnotin Hnd']; subst.
  destruct Hin as [->|Hin].
  - rewrite (Zero l Hnotin). lia.
  - rewrite (IH Hnd' Hin).
    assert (Hz : count_occ include_rule_eq_dec (flat_map includes_of [a])
                   (mdl p, n, cls p) = 0).
    { apply Zero. cbn [map]. intros [E|[]]. apply Hnotin. rewrite E.
      now apply in_map. }
    cbn [flat_map] in Hz. rewrite List.app_nil_r in Hz. now rewrite Hz.
Qed.

(** C1, as the script has it.  When the scan succeeds on a tree whose
    listings hold valid, distinct names, the include rules of a processed
    header H are in the output together and in file order, one for each
    occurrence of a name n in what is extracted from H; the number of rules
    (H.modulename, n, H.classname) is the number of occurrences of n in the
    extraction, plus one if the rule is also the manual include rule. *)
Theorem include_rule_per_occurrence (syms : list symbol_rule)
    (incs : list include_rule) (p n : string) :
  Glob.has_magic qt_include_dir = false ->
  names_valid listdir -> names_distinct listdir ->
  collect_rules qt_include_dir = Ok (syms, incs) ->
  In p (processed qt_include_dir) ->
  In n (private_names p) ->
  In (mdl p, n, cls p) incs /\
  (exists before after,
     incs = (before
               ++ map (fun n => (mdl p, n, cls p)) (private_names p)
               ++ after)%list) /\
  count_occ include_rule_eq_dec incs (mdl p, n, cls p) =
  count_occ string_dec (private_names p) n +
  count_occ include_rule_eq_dec manual_includes (mdl p, n, cls p).
Proof.
  intros Hm Hv Hd H Hp Hn. apply collect_rules_ok in H as [_ ->].
  assert (Ho : In p (output_order qt_include_dir))
    by now apply in_output_order.
  split; [|split].
  - apply in_or_app. right. apply in_includes. now exists p, n.
  - destruct (in_split _ _ Ho) as (l1 & l2 & E). rewrite E.
    exists (manual_includes ++ flat_map includes_of l1)%list,
           (flat_map includes_of l2).
    rewrite flat_map_app. cbn [flat_map].
    now rewrite <- !List.app_assoc.
  - rewrite count_occ_app, count_includes_flat, count_includes_of;
      [lia| |assumption].
    apply (Permutation_NoDup
             (Permutation_map key
                (Permutation_sym (output_order_perm _ _ _ qt_include_dir)))).
    now apply NoDup_key_processed.
Qed.

Abbreviation module_entry := (Scan.module_entry listdir isdir qt_include_dir).
Abbreviation file_listed := (Scan.file_listed listdir qt_include_dir).
Abbreviation glob_prefix := (Scan.glob_prefix qt_include_dir).

(** The paths [glob] returns, for a tree whose listings hold valid names. *)
Lemma glob_results_shape (p : string) :
  Glob.has_magic qt_include_dir = false ->
  names_valid listdir ->
  (In p (glob_results qt_include_dir) <->
   exists d f,
     module_entry d /\ file_listed d f /\
     Glob._ishidden f = false /\ last_ok f = true /\
     p = glob_prefix ++ d ++ "/" ++ f).
Proof.
  intros Hm Hv. rewrite in_glob_results by assumption.
  split; intros (d & f & Hd & Hf & Hh & Hl & ->); exists d, f;
    repeat (split; [assumption|]);
    destruct (header_of_entry qt_include_dir d f
                (module_entry_valid _ _ _ Hv _ Hd)
                (file_listed_valid _ _ Hv _ _ Hf)) as [E _];
    [exact E|symmetry; exact E].
Qed.

Lemma entry_path_inj (d f d' f' : string) :
  valid_name d = true -> valid_name d' = true ->
  glob_prefix ++ d ++ "/" ++ f = glob_prefix ++ d' ++ "/" ++ f' ->
  d = d' /\ f = f'.
Proof.
  intros Hd Hd' E. apply string_app_inv_head in E.
  apply valid_name_parts in Hd as [_ Hd], Hd' as [_ Hd'].
  now apply dir_file_inj.
Qed.

Lemma dot_h_last_ok (f : string) :
  Str.endswith ".h" f = true -> last_ok f = false.
Proof.
  intros H. rewrite <- fnmatch_not_dot_h. now apply dot_h_not_matched.
Qed.

(** C3, as the script has it.  For a root without wildcard characters and
    listings of valid names, every candidate is a non-directory entry one
    level below the root, root/d/f with d a sub-directory of the root, and
    its name f does not end in [.h]; an entry root/d/f whose name ends in
    [.h] is never a candidate; and a non-directory entry root/d/f whose
    name does not start with a dot and whose last character is neither a
    dot nor an h is a candidate. *)
Theorem candidates_one_level_no_dot_h :
  Glob.has_magic qt_include_dir = false ->
  names_valid listdir ->
  (forall p, In p (candidates qt_include_dir) ->
     isdir p = false /\
     exists d f,
       module_entry d /\ file_listed d f /\
       p = glob_prefix ++ d ++ "/" ++ f /\ Str.endswith ".h" f = false) /\
  (forall d f,
     module_entry d -> file_listed d f -> Str.endswith ".h" f = true ->
     ~ In (glob_prefix ++ d ++ "/" ++ f) (candidates qt_include_dir)) /\
  (forall d f,
     module_entry d -> file_listed d f ->
     Glob._ishidden f = false -> last_ok f = true ->
     isdir (glob_prefix ++ d ++ "/" ++ f) = false ->
     In (glob_prefix ++ d ++ "/" ++ f) (candidates qt_include_dir)).
Proof.
  intros Hm Hv. split; [|split].
  - intros p Hp. apply filter_In in Hp as [Hp Hdir].
    apply negb_true_iff in Hdir. split; [assumption|].
    apply glob_results_shape in Hp as (d & f & Hd & Hf & _ & Hl & ->);
      try assumption.
    exists d, f. repeat (split; [assumption|]). split; [reflexivity|].
    destruct (Str.endswith ".h" f) eqn:E; [|reflexivity].
    apply dot_h_last_ok in E. congruence.
  - intros d f Hd Hf He Hin. apply filter_In in Hin as [Hin _].
    apply glob_results_shape in Hin as (d' & f' & Hd' & Hf' & _ & Hl & E);
      try assumption.
    apply entry_path_inj in E as [-> ->];
      try (eapply module_entry_valid; eassumption).
    apply dot_h_last_ok in He. congruence.
  - intros d f Hd Hf Hh Hl Hdir. apply filter_In. split.
    + apply glob_results_shape; try assumption. now exists d, f.
    + now rewrite Hdir.
Qed.


End Script.

End ScanClaims.

(** ** The serializer *)

Module FormatFacts.
Import StrFacts ListFacts Layout.








Lemma split_no_sep (c : ascii) (a : string) :
  Str.mem c a = false -> Str.split c a = [a].
Proof.
  induction a as [|x a IH]; [reflexivity|]. simpl.
  intros H. apply orb_false_iff in H as [Hx Ha].
  rewrite Ascii.eqb_sym, Hx, (IH Ha). reflexivity.
Qed.







End FormatFacts.

(** ** Reading back what the serializer writes *)

Module RoundTrip.
Import StrFacts ListFacts Layout FormatFacts ImpFormat.





















End RoundTrip.

(** ** Extraction of the quoted includes *)

Module ReFacts.
Import StrFacts Scan.

Lemma findall_skip (a r : string) :
  Re.findall_from (String.length a) (a ++ r) = Re.findall_from 0 r.
Proof. induction a as [|c a IH]; [reflexivity|exact IH]. Qed.

Lemma findall_from_0_cons (c : ascii) (s : string) :
  Re.findall_from 0 (String c s) =
  match Re.match_include (String c s) with
  | Some (cap, rest) =>
      cap :: Re.findall_from (String.length s - String.length rest) s
  | None => Re.findall_from 0 s
  end.
Proof. reflexivity. Qed.

Lemma dotstar_then_name (n tail : string) :
  Str.mem Re.newline n = false -> line_end tail ->
  Re.dotstar_then Re.include_suffix (n ++ Re.include_suffix ++ tail) =
  Some (n, tail).
Proof.
  intros Hn Ht. induction n as [|c n IH].
  - destruct Ht as [->|[rest ->]]; reflexivity.
  - simpl in Hn. apply orb_false_iff in Hn as [Hc Hn].
    cbn [append Re.dotstar_then].
    rewrite Ascii.eqb_sym, Hc, (IH Hn). reflexivity.
Qed.

Lemma match_include_line (n tail : string) :
  Str.mem Re.newline n = false -> line_end tail ->
  Re.match_include (Re.include_prefix ++ n ++ Re.include_suffix ++ tail) =
  Some (n, tail).
Proof.
  intros Hn Ht. unfold Re.match_include.
  rewrite strip_prefix_app. now apply dotstar_then_name.
Qed.

Lemma match_include_other (c : ascii) (s : string) :
  Ascii.eqb "#" c = false -> Re.match_include (String c s) = None.
Proof.
  intros H. unfold Re.match_include, Re.include_prefix.
  cbn [append Str.strip_prefix]. now rewrite H.
Qed.

(** Text without a hash holds no match. *)
Lemma findall_no_hash (a r : string) :
  Str.mem "#" a = false ->
  Re.findall_from 0 (a ++ r) = Re.findall_from 0 r.
Proof.
  induction a as [|c a IH]; [reflexivity|]. simpl.
  intros H. apply orb_false_iff in H as [Hc Ha].
  now rewrite (match_include_other _ _ Hc), (IH Ha).
Qed.

(** A quoted include alone on its line yields the name between the quote
    and the extension, and extraction goes on with the next line. *)
Lemma findall_quoted_line (n rest : string) :
  Str.mem Re.newline n = false ->
  Re.findall_include
    (Re.include_prefix ++ n ++ Re.include_suffix ++ String Re.newline rest) =
  n :: Re.findall_include rest.
Proof.
  intros Hn. unfold Re.findall_include.
  set (tail := String Re.newline rest).
  assert (Ht : line_end tail) by (right; now exists rest).
  pose proof (match_include_line n tail Hn Ht) as M.
  set (body := "include " ++ String Re.dquote "").
  change (Re.include_prefix ++ n ++ Re.include_suffix ++ tail)
    with (String "#" (body ++ n ++ Re.include_suffix ++ tail)) in M |- *.
  rewrite findall_from_0_cons, M. f_equal.
  replace (body ++ n ++ Re.include_suffix ++ tail)
    with ((body ++ n ++ Re.include_suffix) ++ tail)
    by now rewrite !app_assoc.
  rewrite length_app, Nat.add_sub, findall_skip.
  unfold tail. apply (findall_no_hash (String Re.newline "") rest).
  reflexivity.
Qed.

(** An include in angle brackets yields nothing. *)
Lemma findall_angle_include (x rest : string) :
  Str.mem "#" x = false ->
  Re.findall_include ("#include <" ++ x ++ rest) = Re.findall_include rest.
Proof.
  intros Hx. unfold Re.findall_include.
  change ("#include <" ++ x ++ rest)
    with (String "#" ("include <" ++ x ++ rest)).
  rewrite findall_from_0_cons.
  change (Re.match_include (String "#" ("include <" ++ x ++ rest)))
    with (@None (string * string)).
  cbv iota. rewrite <- app_assoc. apply findall_no_hash.
  now rewrite mem_app, Hx.
Qed.

End ReFacts.

(** ** The example tree *)

Module ExampleFacts.
Import Scan.

Abbreviation ex_collect_rules :=
  (collect_rules Example.listdir Example.isdir Example.lexists
     Example.read_file "qt").
Abbreviation ex_glob_results :=
  (Scan.glob_results Example.listdir Example.isdir Example.lexists "qt").
Abbreviation ex_candidates :=
  (Scan.candidates Example.listdir Example.isdir Example.lexists "qt").
Abbreviation ex_processed :=
  (Scan.processed Example.listdir Example.isdir Example.lexists "qt").
Abbreviation ex_immediate :=
  (Scan.immediate Example.listdir Example.isdir Example.lexists "qt").
Abbreviation ex_deferred :=
  (Scan.deferred Example.listdir Example.isdir Example.lexists "qt").
Abbreviation ex_output_order :=
  (Scan.output_order Example.listdir Example.isdir Example.lexists "qt").
Abbreviation ex_private_names := (Scan.private_names Example.read_file).
Abbreviation ex_includes_of := (Scan.includes_of Example.read_file).
Abbreviation ex_module_entry :=
  (Scan.module_entry Example.listdir Example.isdir "qt").
Abbreviation ex_file_listed := (Scan.file_listed Example.listdir "qt").
Abbreviation cls p := (classname (QtHeader__init__ p)).
Abbreviation mdl p := (modulename (QtHeader__init__ p)).

Ltac find_in := vm_compute; solve [repeat (first [now left | right])].

Lemma lookup_in {A : Type} (table : list (string * A)) (p : string) (v : A) :
  Example.lookup table p = Some v -> In (p, v) table.
Proof.
  unfold Example.lookup.
  destruct (find _ table) as [[k w]|] eqn:E; [|discriminate].
  intros [= <-]. apply find_some in E as [Hin Hk].
  apply String.eqb_eq in Hk. simpl in Hk. now subst.
Qed.

Lemma nodupb_NoDup (l : list string) : Example.nodupb l = true -> NoDup l.
Proof.
  induction l as [|x l IH]; [constructor|].
  cbn [Example.nodupb]. intros H. apply andb_true_iff in H as [H1 H2].
  constructor; [|now apply IH].
  intros Hin. apply negb_true_iff in H1.
  assert (E : existsb (String.eqb x) l = true).
  { apply existsb_exists. exists x. split; [assumption|apply String.eqb_refl]. }
  congruence.
Qed.

Lemma example_names_valid : names_valid Example.listdir.
Proof.
  intros dir names H. apply lookup_in in H.
  assert (G : forallb (fun kv => forallb valid_name (snd kv))
                Example.listings = true) by reflexivity.
  rewrite forallb_forall in G. specialize (G _ H). cbn [snd] in G.
  rewrite forallb_forall in G. now apply Forall_forall.
Qed.

Lemma example_names_distinct : names_distinct Example.listdir.
Proof.
  intros dir names H. apply lookup_in in H.
  assert (G : forallb (fun kv => Example.nodupb (snd kv))
                Example.listings = true) by reflexivity.
  rewrite forallb_forall in G. specialize (G _ H).
  now apply nodupb_NoDup.
Qed.

(** The scan of the example tree gives the rules listed with it. *)
Lemma example_rules :
  ex_collect_rules = Ok (Example.symbols, Example.includes).
Proof. vm_compute. reflexivity. Qed.

Lemma example_module_entry : ex_module_entry "QtCore".
Proof.
  unfold Scan.module_entry. eexists. split; [reflexivity|].
  split; [find_in|]. split; reflexivity.
Qed.

Lemma example_file_listed (f : string) :
  In f ["QObject"; "QtCore"; "qobject.h"; "QHash"; "QInternal"; "Qt";
        "private"] ->
  ex_file_listed "QtCore" f.
Proof.
  intros H. unfold Scan.file_listed. eexists. split; [reflexivity|exact H].
Qed.

(** *** The theorems above, on the example tree *)

Lemma umbrella_rules_come_last_witness :
  Example.symbols =
    (manual_symbols ++ flat_map symbols_of ex_immediate
       ++ flat_map symbols_of ex_deferred)%list /\
  Example.includes =
    (manual_includes ++ flat_map ex_includes_of ex_immediate
       ++ flat_map ex_includes_of ex_deferred)%list /\
  (forall p, In p ex_immediate <-> In p ex_processed /\ cls p <> mdl p) /\
  (forall p, In p ex_deferred <-> In p ex_processed /\ cls p = mdl p).
Proof.
  apply (ScanClaims.umbrella_rules_come_last
           Example.listdir Example.isdir Example.lexists Example.read_file
           "qt" Example.symbols Example.includes).
  vm_compute. reflexivity.
Defined.

Lemma manual_overrides_first_witness :
  Example.symbols =
    ((("qDebug", "QtGlobal")
        :: map (fun s => (s, "QObject")) QOBJECT_SYMBOLS)
       ++ flat_map symbols_of ex_output_order)%list /\
  Example.includes =
    ([("QtCore", "qnamespace", "Qt")]
       ++ flat_map ex_includes_of ex_output_order)%list.
Proof.
  apply (ScanClaims.manual_overrides_first
           Example.listdir Example.isdir Example.lexists Example.read_file
           "qt" Example.symbols Example.includes).
  vm_compute. reflexivity.
Defined.

Lemma excluded_header_has_no_rule_witness :
  (forall p, cls p = "QInternal" -> ~ In p ex_output_order) /\
  (forall s, ~ In (s, "QInternal") Example.symbols) /\
  (forall m n, ~ In (m, n, "QInternal") Example.includes).
Proof.
  apply (ScanClaims.excluded_header_has_no_rule
           Example.listdir Example.isdir Example.lexists Example.read_file
           "qt" Example.symbols Example.includes).
  vm_compute. reflexivity.
Defined.


Lemma symbol_rule_per_header_witness :
  In (cls "qt/QtGui/QAction", cls "qt/QtGui/QAction") Example.symbols /\
  count_occ symbol_rule_eq_dec Example.symbols
    (cls "qt/QtGui/QAction", cls "qt/QtGui/QAction") =
  count_occ string_dec (map (fun q => cls q) ex_processed)
    (cls "qt/QtGui/QAction").
Proof.
  apply (ScanClaims.symbol_rule_per_header
           Example.listdir Example.isdir Example.lexists Example.read_file
           "qt" Example.symbols Example.includes "qt/QtGui/QAction").
  - vm_compute. reflexivity.
  - find_in.
Defined.

Lemma include_rule_per_occurrence_witness :
  In (mdl "qt/QtGui/QWidget", "qwidget", cls "qt/QtGui/QWidget")
     Example.includes /\
  (exists before after,
     Example.includes =
     (before
        ++ map (fun n => (mdl "qt/QtGui/QWidget", n, cls "qt/QtGui/QWidget"))
               (ex_private_names "qt/QtGui/QWidget")
        ++ after)%list) /\
  count_occ include_rule_eq_dec Example.includes
    (mdl "qt/QtGui/QWidget", "qwidget", cls "qt/QtGui/QWidget") =
  count_occ string_dec (ex_private_names "qt/QtGui/QWidget") "qwidget" +
  count_occ include_rule_eq_dec manual_includes
    (mdl "qt/QtGui/QWidget", "qwidget", cls "qt/QtGui/QWidget").
Proof.
  apply (ScanClaims.include_rule_per_occurrence
           Example.listdir Example.isdir Example.lexists Example.read_file
           "qt" Example.symbols Example.includes "qt/QtGui/QWidget" "qwidget").
  - reflexivity.
  - exact example_names_valid.
  - exact example_names_distinct.
  - vm_compute. reflexivity.
  - find_in.
  - find_in.
Defined.

Lemma candidates_one_level_no_dot_h_witness :
  In (Scan.glob_prefix "qt" ++ "QtCore" ++ "/" ++ "QObject") ex_candidates /\
  ~ In (Scan.glob_prefix "qt" ++ "QtCore" ++ "/" ++ "qobject.h") ex_candidates.
Proof.
  destruct (ScanClaims.candidates_one_level_no_dot_h
              Example.listdir Example.isdir Example.lexists "qt"
              eq_refl example_names_valid) as (_ & Hno & Hyes).
  split.
  - apply Hyes; try reflexivity.
    + exact example_module_entry.
    + apply example_file_listed. find_in.
  - apply Hno; try reflexivity.
    + exact example_module_entry.
    + apply example_file_listed. find_in.
Defined.



(** *** What the example tree rules out *)

(** C1 as stated fails: the header QtCore/Qt includes qnamespace.h once,
    and the output holds the rule (QtCore, qnamespace, Qt) twice, once
    from the manual rules; QtGui/QWidget includes qwidget.h twice, and the
    output holds (QtGui, qwidget, QWidget) twice. *)
Lemma include_rule_not_exactly_one :
  ex_collect_rules = Ok (Example.symbols, Example.includes) /\
  In "qt/QtCore/Qt" ex_processed /\
  In "qnamespace" (ex_private_names "qt/QtCore/Qt") /\
  count_occ include_rule_eq_dec Example.includes
    (mdl "qt/QtCore/Qt", "qnamespace", cls "qt/QtCore/Qt") = 2 /\
  In "qt/QtGui/QWidget" ex_processed /\
  In "qwidget" (ex_private_names "qt/QtGui/QWidget") /\
  count_occ include_rule_eq_dec Example.includes
    (mdl "qt/QtGui/QWidget", "qwidget", cls "qt/QtGui/QWidget") = 2.
Proof.
  split; [exact example_rules|].
  repeat split; try find_in; vm_compute; reflexivity.
Qed.

(** C2 as stated fails: QtGui/QAction has a class name other than its
    module name, and the output holds the rule (QAction, QAction) twice,
    once for QtGui/QAction and once for QtWidgets/QAction. *)
Lemma symbol_rule_not_exactly_one :
  ex_collect_rules = Ok (Example.symbols, Example.includes) /\
  In "qt/QtGui/QAction" ex_processed /\
  cls "qt/QtGui/QAction" <> mdl "qt/QtGui/QAction" /\
  count_occ symbol_rule_eq_dec Example.symbols
    (cls "qt/QtGui/QAction", cls "qt/QtGui/QAction") = 2.
Proof.
  split; [exact example_rules|].
  split; [find_in|]. split; [vm_compute; discriminate|].
  vm_compute. reflexivity.
Qed.

(** C3 as stated fails: README in the root and QDeep two directories down
    are files of the tree whose names do not end in [.h], and neither is a
    candidate. *)
Lemma file_outside_one_level_not_candidate :
  Example.isdir "qt/README" = false /\
  Example.lexists "qt/README" = true /\
  Str.endswith ".h" "README" = false /\
  ~ In "qt/README" ex_candidates /\
  Example.isdir "qt/QtCore/private/QDeep" = false /\
  Example.lexists "qt/QtCore/private/QDeep" = true /\
  Str.endswith ".h" "QDeep" = false /\
  ~ In "qt/QtCore/private/QDeep" ex_candidates.
Proof.
  repeat split; try reflexivity; vm_compute; intuition discriminate.
Qed.


End ExampleFacts.

(** ** More on the scan *)

Module ScanMore.
Import StrFacts PathFacts GlobFacts ListFacts ScanFacts Discovery Scan.

Lemma find_ext_in {A : Type} (f g : A -> bool) (l : list A) :
  (forall a, In a l -> f a = g a) -> find f l = find g l.
Proof.
  induction l as [|a l IH]; [reflexivity|]. intros H. cbn [find].
  rewrite <- (H a) by now left. destruct (f a); [reflexivity|].
  apply IH. intros b Hb. apply H. now right.
Qed.

Lemma length_flat_map {A B : Type} (f : A -> list B) (l : list A) :
  length (flat_map f l) = list_sum (map (fun a => length (f a)) l).
Proof.
  induction l as [|a l IH]; [reflexivity|].
  simpl. now rewrite List.length_app, IH.
Qed.

Lemma list_sum_perm (l l' : list nat) :
  Permutation l l' -> list_sum l = list_sum l'.
Proof. induction 1; simpl; lia. Qed.

(** X1.  Once [get_private_headers] has returned, the header it returns
    carries the list: a second call gives the same list and the same header
    without reading the file, whatever the file has become. *)
Theorem get_private_headers_cached
    (read_file read_file' : string -> option string)
    (self self' : QtHeader) (included : list string) :
  get_private_headers read_file self = Ok (included, self') ->
  get_private_headers read_file' self' = Ok (included, self') /\
  headername self' = headername self /\
  classname self' = classname self /\
  modulename self' = modulename self.
Proof.
  unfold get_private_headers.
  destruct (_private_headers self) as [cached|] eqn:E.
  - intros [= <- <-]. now rewrite E.
  - destruct (read_file (headername self)) as [text|]; [|discriminate].
    intros [= <- <-]. now cbn.
Qed.

(** X14.  [add_mapping_rules] only appends: the rules already in the two
    lists stay where they are, the symbol rule of the header is added at
    the end of the first list and one include rule per extracted name, in
    order, at the end of the second; when the header cannot be read the
    exception of [get_private_headers] comes out unchanged. *)
Theorem add_mapping_rules_appends (read_file : string -> option string)
    (header : QtHeader) (syms : list symbol_rule) (incs : list include_rule) :
  add_mapping_rules read_file header (syms, incs) =
  match get_private_headers read_file header with
  | Ok (private, _) =>
      Ok ((syms ++ [(classname header, classname header)])%list,
          (incs ++ map (fun n => (modulename header, n, classname header))
                       private)%list)
  | Raise e => Raise e
  end.
Proof.
  unfold add_mapping_rules.
  destruct (get_private_headers read_file header) as [[private h']|e] eqn:E;
    [|reflexivity].
  cbn [bind]. rewrite fold_left_snoc.
  unfold get_private_headers in E.
  destruct (_private_headers header) as [cached|].
  - now injection E as <- <-.
  - destruct (read_file (headername header)); [|discriminate].
    now injection E as <- <-.
Qed.

Section Script.

Variable listdir : string -> option (list string).
Variable isdir : string -> bool.
Variable lexists : string -> bool.
Variable read_file : string -> option string.
Variable can_write : string -> bool.

Abbreviation collect_rules :=
  (QtMappings.collect_rules listdir isdir lexists read_file).
Abbreviation main :=
  (QtMappings.main listdir isdir lexists read_file can_write).
Abbreviation glob_results := (Scan.glob_results listdir isdir lexists).
Abbreviation candidates := (Scan.candidates listdir isdir lexists).
Abbreviation processed := (Scan.processed listdir isdir lexists).
Abbreviation output_order := (Scan.output_order listdir isdir lexists).
Abbreviation unreadable := (Scan.unreadable read_file).
Abbreviation private_names := (Scan.private_names read_file).
Abbreviation includes_of := (Scan.includes_of read_file).

Lemma main_closed_form (qt_include_dir output_file : string)
    (before : option string) :
  main qt_include_dir output_file before =
  match find unreadable (output_order qt_include_dir) with
  | Some q => (Raise (IOError q), before)
  | None =>
      if can_write output_file then
        (Ok 0,
         Some (document
                 (build_imp_lines
                    (manual_symbols
                       ++ flat_map symbols_of (output_order qt_include_dir))
                    (manual_includes
                       ++ flat_map includes_of (output_order qt_include_dir)))))
      else (Raise (IOError output_file), before)
  end.
Proof.
  unfold QtMappings.main. rewrite collect_rules_eq.
  fold (output_order qt_include_dir).
  now destruct (find unreadable (output_order qt_include_dir)).
Qed.




(** X12.  When the scan succeeds, there are as many symbol rules as manual
    symbol rules (32) plus processed headers, and as many include rules as
    one plus the names extracted from all processed headers. *)
Theorem rule_counts (qt_include_dir : string) (syms : list symbol_rule)
    (incs : list include_rule) :
  collect_rules qt_include_dir = Ok (syms, incs) ->
  length syms = 32 + length (processed qt_include_dir) /\
  length incs =
  1 + list_sum (map (fun p => length (private_names p))
                    (processed qt_include_dir)).
Proof.
  intros H. apply collect_rules_ok in H as [-> ->].
  rewrite !List.length_app, !length_flat_map.
  change (length manual_symbols) with 32.
  change (length manual_includes) with 1.
  pose proof (output_order_perm listdir isdir lexists qt_include_dir) as P.
  split; f_equal.
  - rewrite (list_sum_perm _ _
               (Permutation_map (fun a => length (symbols_of a)) P)).
    rewrite (map_ext _ (fun _ => 1)) by reflexivity.
    clear. induction (processed qt_include_dir) as [|a l IH];
      [reflexivity|].
    simpl. now rewrite IH.
  - rewrite (list_sum_perm _ _
               (Permutation_map (fun a => length (includes_of a)) P)).
    f_equal. apply map_ext. intros p. unfold Scan.includes_of.
    apply length_map.
Qed.

Section Candidates.

Variable qt_include_dir : string.

Abbreviation module_entry := (Scan.module_entry listdir isdir qt_include_dir).
Abbreviation file_listed := (Scan.file_listed listdir qt_include_dir).
Abbreviation glob_prefix := (Scan.glob_prefix qt_include_dir).

(** X11.  For a root without wildcard characters and listings of valid
    names, the candidates are exactly the paths root/d/f that are not
    directories, with d a sub-directory of the root and f an entry of d,
    neither name starting with a dot, and the last character of f neither
    a dot nor an h.  So a header whose name ends in h, such as QHash, is
    never a candidate although it has no extension. *)
Theorem candidates_exactly :
  Glob.has_magic qt_include_dir = false ->
  names_valid listdir ->
  (forall p,
     In p (candidates qt_include_dir) <->
     isdir p = false /\
     exists d f,
       module_entry d /\ file_listed d f /\
       Glob._ishidden f = false /\ last_ok f = true /\
       p = glob_prefix ++ d ++ "/" ++ f) /\
  (forall d f,
     module_entry d -> file_listed d f ->
     Str.last f = Some "h"%char \/ Str.last f = Some "."%char ->
     ~ In (glob_prefix ++ d ++ "/" ++ f) (candidates qt_include_dir)).
Proof.
  intros Hm Hv.
  assert (Iff : forall p,
            In p (candidates qt_include_dir) <->
            isdir p = false /\
            exists d f,
              module_entry d /\ file_listed d f /\
              Glob._ishidden f = false /\ last_ok f = true /\
              p = glob_prefix ++ d ++ "/" ++ f).
  { intros p. unfold Scan.candidates. rewrite filter_In, negb_true_iff.
    rewrite (ScanClaims.glob_results_shape listdir isdir lexists
               qt_include_dir p Hm Hv).
    apply and_comm. }
  split; [exact Iff|].
  intros d f Hd Hf Hlast Hin. apply Iff in Hin as [_ Hin].
  destruct Hin as (d' & f' & Hd' & Hf' & _ & Hok & E).
  apply ScanClaims.entry_path_inj in E as [-> ->];
    try (eapply module_entry_valid; eassumption).
  unfold last_ok in Hok. now destruct Hlast as [H|H]; rewrite H in Hok.
Qed.

End Candidates.

End Script.

(** X4.  [main] reads no file but the headers that reach
    [add_mapping_rules]: two trees that differ only in the content or the
    readability of other files (directories, QInternal headers, files the
    pattern does not match, files at other depths) give the same outcome. *)
Theorem only_processed_headers_are_read
    (listdir : string -> option (list string))
    (isdir lexists : string -> bool)
    (read_file read_file' : string -> option string)
    (can_write : string -> bool)
    (qt_include_dir output_file : string) (before : option string) :
  (forall p, In p (Scan.processed listdir isdir lexists qt_include_dir) ->
             read_file' p = read_file p) ->
  main listdir isdir lexists read_file' can_write
       qt_include_dir output_file before =
  main listdir isdir lexists read_file can_write
       qt_include_dir output_file before.
Proof.
  intros H. rewrite !main_closed_form.
  assert (H' : forall p,
            In p (Scan.output_order listdir isdir lexists qt_include_dir) ->
            read_file' p = read_file p).
  { intros p Hp. apply H. now apply in_output_order. }
  rewrite (find_ext_in (Scan.unreadable read_file')
             (Scan.unreadable read_file)).
  2:{ intros p Hp. unfold Scan.unreadable. now rewrite (H' p Hp). }
  rewrite (flat_map_ext_in (Scan.includes_of read_file')
             (Scan.includes_of read_file)).
  2:{ intros p Hp. unfold Scan.includes_of, Scan.private_names.
      now rewrite (H' p Hp). }
  reflexivity.
Qed.

Lemma slashes_snoc (k : nat) :
  Text.slashes (S k) = Text.slashes k ++ "/".
Proof.
  induction k as [|k IH]; [reflexivity|].
  change (String "/" (Text.slashes (S k)) =
          String "/" (Text.slashes k ++ "/")).
  f_equal. exact IH.
Qed.

Lemma rstrip_sep_slashes (x : string) (k : nat) :
  PosixPath.rstrip_sep (x ++ Text.slashes k) = PosixPath.rstrip_sep x.
Proof.
  induction k as [|k IH].
  - cbn [Text.slashes]. now rewrite app_nil_r.
  - now rewrite slashes_snoc, <- app_assoc, rstrip_sep_app_sep.
Qed.

Lemma ends_sep_slashes (x : string) (k : nat) :
  PosixPath.ends_sep (x ++ Text.slashes (S k)) = true.
Proof. rewrite slashes_snoc, <- app_assoc. apply ends_sep_app_sep. Qed.

Lemma not_all_sep_app (x y : string) :
  Str.nonempty x = true -> PosixPath.ends_sep x = false ->
  PosixPath.all_sep (x ++ y) = false.
Proof.
  intros Hn He. destruct (PosixPath.all_sep (x ++ y)) eqn:E; [|reflexivity].
  destruct (nonempty_last _ Hn) as [c Hc].
  assert (Hm : Str.mem c (x ++ y) = true)
    by now rewrite mem_app, (last_mem _ _ Hc).
  pose proof (all_sep_mem _ _ E Hm) as Hs.
  unfold PosixPath.ends_sep in He. rewrite Hc in He. congruence.
Qed.

(** The root [glob] works from, for a path with trailing slashes. *)
Lemma glob_root_slashes (root : string) (k : nat) :
  Str.nonempty root = true -> PosixPath.ends_sep root = false ->
  glob_root (root ++ Text.slashes k) = root.
Proof.
  intros Hn He.
  assert (G : forall j,
            PosixPath.strip_head (root ++ Text.slashes (S j)) = root).
  { intros j. unfold PosixPath.strip_head.
    rewrite nonempty_app_r by reflexivity.
    rewrite not_all_sep_app by assumption. cbn [negb andb].
    rewrite rstrip_sep_slashes. now apply rstrip_sep_keep. }
  unfold glob_root, join_prefix. destruct k as [|k].
  - cbn [Text.slashes]. rewrite app_nil_r, Hn, He. cbn [negb orb].
    apply (G 0).
  - rewrite ends_sep_slashes, orb_true_r. apply G.
Qed.

(** X5.  Trailing slashes on the input directory change nothing: for a
    root without wildcard characters that does not end in a slash, [main]
    on the root followed by any number of slashes does what it does on the
    root. *)
Theorem trailing_slashes_irrelevant
    (listdir : string -> option (list string))
    (isdir lexists : string -> bool)
    (read_file : string -> option string)
    (can_write : string -> bool)
    (root output_file : string) (before : option string) (k : nat) :
  Glob.has_magic root = false ->
  Str.nonempty root = true -> PosixPath.ends_sep root = false ->
  main listdir isdir lexists read_file can_write
       (root ++ Text.slashes k) output_file before =
  main listdir isdir lexists read_file can_write root output_file before.
Proof.
  intros Hm Hn He.
  assert (Hm' : Glob.has_magic (root ++ Text.slashes k) = false).
  { rewrite has_magic_app, Hm. clear.
    induction k as [|k IH]; [reflexivity|exact IH]. }
  assert (E : Scan.glob_results listdir isdir lexists
                (root ++ Text.slashes k) =
              Scan.glob_results listdir isdir lexists root).
  { unfold Scan.glob_results. rewrite !glob_eq by assumption.
    unfold Scan.module_dirs.
    assert (G0 : glob_root root = root).
    { pose proof (glob_root_slashes root 0 Hn He) as G.
      cbn [Text.slashes] in G. now rewrite app_nil_r in G. }
    rewrite glob_root_slashes by assumption. now rewrite G0. }
  unfold main, collect_rules.
  fold (Scan.glob_results listdir isdir lexists (root ++ Text.slashes k)).
  fold (Scan.glob_results listdir isdir lexists root).
  now rewrite E.
Qed.

End ScanMore.

(** ** More on header text, paths and the document *)

Module TextMore.
Import StrFacts PathFacts ListFacts Layout FormatFacts ReFacts Scan Text.

Lemma dotstar_then_inv (lit s cap r : string) :
  Re.dotstar_then lit s = Some (cap, r) ->
  s = cap ++ lit ++ r /\ Str.mem Re.newline cap = false.
Proof.
  revert cap r. induction s as [|c s IH]; intros cap r.
  - cbn [Re.dotstar_then].
    destruct (Str.strip_prefix lit "") as [r0|] eqn:E; [|discriminate].
    intros [= <- <-]. apply strip_prefix_inv in E. now split.
  - cbn [Re.dotstar_then].
    assert (Here : match Str.strip_prefix lit (String c s) with
                   | Some r0 => Some ("", r0)
                   | None => None
                   end = Some (cap, r) ->
                   String c s = cap ++ lit ++ r /\
                   Str.mem Re.newline cap = false).
    { destruct (Str.strip_prefix lit (String c s)) as [r0|] eqn:E;
        [|discriminate].
      intros [= <- <-]. apply strip_prefix_inv in E. now split. }
    destruct (Ascii.eqb c Re.newline) eqn:Ec; [exact Here|].
    destruct (Re.dotstar_then lit s) as [[cap' r']|] eqn:E; [|exact Here].
    intros [= <- <-]. destruct (IH _ _ eq_refl) as [-> Hn].
    split; [reflexivity|]. simpl. now rewrite Ascii.eqb_sym, Ec.
Qed.

Lemma match_include_inv (s cap r : string) :
  Re.match_include s = Some (cap, r) ->
  s = Re.include_prefix ++ cap ++ Re.include_suffix ++ r /\
  Str.mem Re.newline cap = false.
Proof.
  unfold Re.match_include.
  destruct (Str.strip_prefix Re.include_prefix s) as [s'|] eqn:E;
    [|discriminate].
  intros H. apply strip_prefix_inv in E.
  apply dotstar_then_inv in H as [-> Hn]. now split.
Qed.

Lemma findall_from_sound (s : string) (skip : nat) (n : string) :
  In n (Re.findall_from skip s) ->
  Str.mem Re.newline n = false /\
  exists pre post,
    s = pre ++ Re.include_prefix ++ n ++ Re.include_suffix ++ post.
Proof.
  revert skip. induction s as [|c s IH]; intros skip; [easy|].
  assert (Later : forall k, In n (Re.findall_from k s) ->
            Str.mem Re.newline n = false /\
            exists pre post,
              String c s =
              pre ++ Re.include_prefix ++ n ++ Re.include_suffix ++ post).
  { intros k Hk. destruct (IH k Hk) as (Hn & pre & post & E).
    split; [assumption|]. exists (String c pre), post. now rewrite E. }
  destruct skip as [|k]; [|apply Later].
  rewrite findall_from_0_cons.
  destruct (Re.match_include (String c s)) as [[cap rest]|] eqn:M;
    [|apply Later].
  intros [<-|Hin]; [|now apply (Later _ Hin)].
  apply match_include_inv in M as [E Hn].
  split; [assumption|]. now exists "", rest.
Qed.

(** X6.  Every name [get_private_headers] extracts stands in the text
    between the quote of a [#include "] and a [.h"], and holds no newline:
    the extraction never invents a name and never runs over a line end. *)
Theorem findall_include_sound (text n : string) :
  In n (Re.findall_include text) ->
  Str.mem Re.newline n = false /\
  exists pre post,
    text = pre ++ Re.include_prefix ++ n ++ Re.include_suffix ++ post.
Proof. apply findall_from_sound. Qed.

(** X7.  For a header made of lines that are each a quoted include of
    [name.h], an include in angle brackets, or text without a hash, the
    extraction gives the names of the quoted includes, in file order, and
    nothing for the other lines. *)
Theorem findall_include_lines (ls : list header_line) :
  forallb line_ok ls = true ->
  Re.findall_include (render_lines ls) = quoted_names ls.
Proof.
  induction ls as [|l ls IH]; [reflexivity|].
  cbn [forallb]. intros H. apply andb_true_iff in H as [Hl Hls].
  specialize (IH Hls). cbn [render_lines].
  destruct l as [name|name|text]; cbn [line_ok render_line quoted_names] in *;
    apply negb_true_iff in Hl.
  - rewrite !app_assoc.
    change (String Re.newline "" ++ render_lines ls)
      with (String Re.newline (render_lines ls)).
    rewrite findall_quoted_line by assumption. now rewrite IH.
  - rewrite app_assoc, <- IH.
    apply (findall_angle_include (name ++ ".h>" ++ String Re.newline "")).
    now rewrite mem_app, Hl.
  - rewrite <- IH. unfold Re.findall_include. apply findall_no_hash.
    now rewrite mem_app, Hl.
Qed.

(** X15.  The group of the pattern is greedy: when a line holds a quoted
    include followed by more text that ends in [.h"], the one name
    extracted from the line runs from the first quote to the last [.h"]
    of the line. *)
Theorem findall_include_greedy (first more rest : string) :
  Str.mem Re.newline first = false ->
  Str.mem Re.newline more = false ->
  Re.findall_include
    (Re.include_prefix ++ first ++ Re.include_suffix ++ more
       ++ Re.include_suffix ++ String Re.newline rest) =
  (first ++ Re.include_suffix ++ more) :: Re.findall_include rest.
Proof.
  intros H1 H2.
  rewrite <- (findall_quoted_line (first ++ Re.include_suffix ++ more) rest).
  - now rewrite !app_assoc.
  - now rewrite !mem_app, H1, H2.
Qed.








(** X9.  A header path [x/d/f], where [d] and [f] are names (not empty, no
    slash) and what precedes [d] is empty or ends in a slash, has class
    name [f] and module name [d]. *)
Theorem header_names_of_path (x d f : string) :
  x = "" \/ PosixPath.ends_sep x = true ->
  valid_name d = true -> valid_name f = true ->
  classname (QtHeader__init__ (x ++ d ++ "/" ++ f)) = f /\
  modulename (QtHeader__init__ (x ++ d ++ "/" ++ f)) = d.
Proof.
  intros Hx Hd Hf.
  destruct (basename_dir_file x d f Hx Hd Hf) as (E & H1 & H2).
  rewrite <- app_assoc, <- E. cbn [QtHeader__init__ classname modulename].
  now split.
Qed.

(** X10.  A header path without any slash is its own class name and has
    the empty module name. *)
Theorem header_names_of_bare_name (name : string) :
  Str.mem "/" name = false ->
  classname (QtHeader__init__ name) = name /\
  modulename (QtHeader__init__ name) = "".
Proof.
  intros H. cbn [QtHeader__init__ classname modulename].
  unfold PosixPath.basename, PosixPath.dirname.
  rewrite (rsplit_sep_no_sep _ H). now split.
Qed.


End TextMore.

(** ** The further properties, on the example tree *)

Module ExtraExamples.
Import Scan Text.

Lemma get_private_headers_cached_witness :
  get_private_headers (fun _ => None)
    (mkQtHeader "qt/QtCore/QObject" "QObject" "QtCore" (Some ["qobject"])) =
  Ok (["qobject"],
      mkQtHeader "qt/QtCore/QObject" "QObject" "QtCore" (Some ["qobject"])) /\
  headername
    (mkQtHeader "qt/QtCore/QObject" "QObject" "QtCore" (Some ["qobject"])) =
  headername (QtHeader__init__ "qt/QtCore/QObject") /\
  classname
    (mkQtHeader "qt/QtCore/QObject" "QObject" "QtCore" (Some ["qobject"])) =
  classname (QtHeader__init__ "qt/QtCore/QObject") /\
  modulename
    (mkQtHeader "qt/QtCore/QObject" "QObject" "QtCore" (Some ["qobject"])) =
  modulename (QtHeader__init__ "qt/QtCore/QObject").
Proof.
  apply (ScanMore.get_private_headers_cached Example.read_file).
  vm_compute. reflexivity.
Defined.


Lemma only_processed_headers_are_read_witness :
  main Example.listdir Example.isdir Example.lexists
    ExampleMore.read_file_other Example.can_write "qt" "qt5.imp" None =
  main Example.listdir Example.isdir Example.lexists
    Example.read_file Example.can_write "qt" "qt5.imp" None.
Proof.
  apply ScanMore.only_processed_headers_are_read.
  intros p Hp. vm_compute in Hp.
  repeat (destruct Hp as [<-|Hp]; [reflexivity|]). contradiction.
Defined.

Lemma trailing_slashes_irrelevant_witness :
  main Example.listdir Example.isdir Example.lexists Example.read_file
    Example.can_write ("qt" ++ slashes 2) "qt5.imp" None =
  main Example.listdir Example.isdir Example.lexists Example.read_file
    Example.can_write "qt" "qt5.imp" None.
Proof.
  apply ScanMore.trailing_slashes_irrelevant; reflexivity.
Defined.

Lemma findall_include_sound_witness :
  Str.mem Re.newline "qwidget" = false /\
  exists pre post,
    Example.quoted "qwidget" ++ Example.line "#include <QtCore/qobject.h>"
      ++ Example.quoted "qwidget" =
    pre ++ Re.include_prefix ++ "qwidget" ++ Re.include_suffix ++ post.
Proof.
  apply TextMore.findall_include_sound.
  vm_compute. now left.
Defined.

Lemma findall_include_greedy_witness :
  Re.findall_include
    (Re.include_prefix ++ "a" ++ Re.include_suffix ++ " // or b"
       ++ Re.include_suffix ++ String Re.newline "") =
  ("a" ++ Re.include_suffix ++ " // or b") :: Re.findall_include "".
Proof.
  apply TextMore.findall_include_greedy; reflexivity.
Defined.

Lemma findall_include_lines_witness :
  Re.findall_include (render_lines ExampleMore.widget_lines) =
  quoted_names ExampleMore.widget_lines.
Proof.
  apply TextMore.findall_include_lines. reflexivity.
Defined.

Lemma header_names_of_path_witness :
  classname (QtHeader__init__ ("qt/" ++ "QtCore" ++ "/" ++ "QObject")) =
  "QObject" /\
  modulename (QtHeader__init__ ("qt/" ++ "QtCore" ++ "/" ++ "QObject")) =
  "QtCore".
Proof.
  apply TextMore.header_names_of_path.
  - right. reflexivity.
  - reflexivity.
  - reflexivity.
Defined.

Lemma header_names_of_bare_name_witness :
  classname (QtHeader__init__ "QObject") = "QObject" /\
  modulename (QtHeader__init__ "QObject") = "".
Proof.
  apply TextMore.header_names_of_bare_name. reflexivity.
Defined.

Lemma candidates_exactly_witness :
  ~ In (Scan.glob_prefix "qt" ++ "QtCore" ++ "/" ++ "QHash")
       (Scan.candidates Example.listdir Example.isdir Example.lexists "qt").
Proof.
  destruct (ScanMore.candidates_exactly
              Example.listdir Example.isdir Example.lexists "qt"
              eq_refl ExampleFacts.example_names_valid) as [_ Hdrop].
  apply Hdrop.
  - exact ExampleFacts.example_module_entry.
  - apply ExampleFacts.example_file_listed. vm_compute. tauto.
  - left. reflexivity.
Defined.

Lemma rule_counts_witness :
  length Example.symbols =
  32 + length (Scan.processed Example.listdir Example.isdir Example.lexists
                 "qt") /\
  length Example.includes =
  1 + list_sum
        (map (fun p => length (Scan.private_names Example.read_file p))
             (Scan.processed Example.listdir Example.isdir Example.lexists
                "qt")).
Proof.
  apply (ScanMore.rule_counts Example.listdir Example.isdir Example.lexists
           Example.read_file "qt" Example.symbols Example.includes).
  vm_compute. reflexivity.
Defined.

End ExtraExamples.
